(** * The rich text editor toolbar module (src/rich_text_editor/index.js)

    A shallow embedding of the module returned by [module.exports]: its
    closure variables ([config], [toolbar], [actions], [lastEl]), the fields
    of the returned object ([customRte], [pfx], [actionbar]) and its methods,
    written as computations in a state-and-exception monad over a store of
    JavaScript objects, a store of DOM elements, the subscriptions of the
    event model and the log of calls made to the collaborators. *)

From stdpp Require Import base option list gmap strings pretty.
From Stdlib Require Import ZArith Lia.

Local Open Scope string_scope.
Local Open Scope list_scope.

(** ** JavaScript numbers

    The module only adds numbers, compares them with [<=], tests them for
    truthiness and converts them to strings.  Numbers are IEEE doubles in the
    source; the development is parametric in their implementation. *)
Class JSNumber (num : Type) := {
  num_add : num → num → num;
  num_le : num → num → bool;
  num_truthy : num → bool;
  num_to_string : num → string;
  num_of_bool : bool → num;
  num_zero : num;
  num_nan : num;
}.

(** One implementation, enough to run the module on whole pixels: the
    integers and NaN. *)
Inductive znum := Int (z : Z) | NaN.

#[export] Instance znum_JSNumber : JSNumber znum := {|
  num_add := λ a b, match a, b with Int x, Int y => Int (x + y) | _, _ => NaN end;
  num_le := λ a b, match a, b with Int x, Int y => Z.leb x y | _, _ => false end;
  num_truthy := λ a, match a with Int z => negb (Z.eqb z 0) | NaN => false end;
  num_to_string := λ a, match a with Int z => pretty z | NaN => "NaN" end;
  num_of_bool := λ b, Int (if b then 1 else 0);
  num_zero := Int 0;
  num_nan := NaN;
|}.

(** ** Values, objects and DOM elements *)

(** Errors a call can end with.  [Unmodelled] marks behaviour outside the
    modelled fragment of JavaScript (conversion of an object to a primitive,
    property writes on collaborator objects). *)
Inductive error := TypeError | ReferenceError | HostError | Unmodelled.

Inductive outcome (S A : Type) :=
| Ret (a : A) (s : S)
| Throw (e : error) (s : S).
Arguments Ret {S A} a s.
Arguments Throw {S A} e s.

(** ** The monad of method bodies: state passing, with exceptions that keep
    the state reached when they were thrown. *)
Definition M (S A : Type) : Type := S → outcome S A.

Definition ret {S A} (a : A) : M S A := λ s, Ret a s.
Definition throw {S A} (e : error) : M S A := λ s, Throw e s.
Definition bind {S A B} (m : M S A) (k : A → M S B) : M S B :=
  λ s, match m s with
       | Ret a s' => k a s'
       | Throw e s' => Throw e s'
       end.
Definition gets {S A} (f : S → A) : M S A := λ s, Ret (f s) s.
Definition modify {S} (f : S → S) : M S unit := λ s, Ret tt (f s).

Notation "'let*' x ':=' m 'in' k" := (bind m (λ x, k))
  (at level 10, x name, m at level 100, k at level 200).
Notation "m ';;' k" := (bind m (λ _, k))
  (at level 100, k at level 200, right associativity).

Section RichTextEditor.
Context {num : Type} `{!JSNumber num}.

(** A JavaScript value: a primitive, a reference to an object or array of the
    store, a DOM element created by the module, or a collaborator object
    (view, event model, canvas, editor instance) known only by its identity. *)
Inductive value :=
| VUndef
| VNull
| VBool (b : bool)
| VNum (n : num)
| VStr (s : string)
| VRef (l : positive)
| VElem (e : positive)
| VHost (h : positive).

(** A plain object has named properties; an array has, besides, its items. *)
Record cell := Cell {
  props : gmap string value;
  items : option (list value);
}.

Record element := Element {
  tagName : string;
  className : string;
  style : gmap string string;
  parent : option value;
  listeners : list string;
}.

(** The geometry the canvas service answers with. *)
Record pos := Pos {
  top : num;
  left : num;
  canvasTop : num;
  elementTop : num;
  elementHeight : num;
}.

(** Calls made to collaborators, in the order they were made. *)
Inductive call :=
| CallMethod (h : positive) (m : string) (args : list value)
| CallDim (canvas : positive) (tb : value) (el : value) (event : string)
| CallNewRte (el : value) (actionbarContainer : value)
    (cls_actionbar cls_button : string) (actionbar : value)
| CallForeign (k : positive).

(** Handlers registered on an event model: the module's own
    [this.udpatePosition] with context [this], or somebody else's. *)
Inductive callback := CbUdpatePosition | CbForeign (k : positive).

#[export] Instance callback_eq_dec : EqDecision callback.
Proof. solve_decision. Defined.

Record sub := Sub {
  sub_em : positive;
  sub_event : string;
  sub_cb : callback;
}.

#[export] Instance sub_eq_dec : EqDecision sub.
Proof. solve_decision. Defined.

(** The state the module's methods read and write. *)
Record state := State {
  heap : gmap positive cell;
  doc : gmap positive element;
  globals : gmap string value;
  config : value;
  toolbar : option positive;
  actions : value;
  lastEl : value;
  customRte : value;
  pfx : value;
  actionbar : value;
  subs : list sub;
  timers : list callback;
  trace : list call;
}.

Definition set_heap (f : gmap positive cell → gmap positive cell) (s : state) : state :=
  State (f (heap s)) (doc s) (globals s) (config s) (toolbar s) (actions s)
        (lastEl s) (customRte s) (pfx s) (actionbar s) (subs s) (timers s) (trace s).
Definition set_doc (f : gmap positive element → gmap positive element) (s : state) : state :=
  State (heap s) (f (doc s)) (globals s) (config s) (toolbar s) (actions s)
        (lastEl s) (customRte s) (pfx s) (actionbar s) (subs s) (timers s) (trace s).
Definition set_config (v : value) (s : state) : state :=
  State (heap s) (doc s) (globals s) v (toolbar s) (actions s)
        (lastEl s) (customRte s) (pfx s) (actionbar s) (subs s) (timers s) (trace s).
Definition set_toolbar (t : option positive) (s : state) : state :=
  State (heap s) (doc s) (globals s) (config s) t (actions s)
        (lastEl s) (customRte s) (pfx s) (actionbar s) (subs s) (timers s) (trace s).
Definition set_actions (v : value) (s : state) : state :=
  State (heap s) (doc s) (globals s) (config s) (toolbar s) v
        (lastEl s) (customRte s) (pfx s) (actionbar s) (subs s) (timers s) (trace s).
Definition set_lastEl (v : value) (s : state) : state :=
  State (heap s) (doc s) (globals s) (config s) (toolbar s) (actions s)
        v (customRte s) (pfx s) (actionbar s) (subs s) (timers s) (trace s).
Definition set_customRte (v : value) (s : state) : state :=
  State (heap s) (doc s) (globals s) (config s) (toolbar s) (actions s)
        (lastEl s) v (pfx s) (actionbar s) (subs s) (timers s) (trace s).
Definition set_pfx (v : value) (s : state) : state :=
  State (heap s) (doc s) (globals s) (config s) (toolbar s) (actions s)
        (lastEl s) (customRte s) v (actionbar s) (subs s) (timers s) (trace s).
Definition set_actionbar (v : value) (s : state) : state :=
  State (heap s) (doc s) (globals s) (config s) (toolbar s) (actions s)
        (lastEl s) (customRte s) (pfx s) v (subs s) (timers s) (trace s).
Definition set_subs (f : list sub → list sub) (s : state) : state :=
  State (heap s) (doc s) (globals s) (config s) (toolbar s) (actions s)
        (lastEl s) (customRte s) (pfx s) (actionbar s) (f (subs s)) (timers s) (trace s).
Definition set_timers (f : list callback → list callback) (s : state) : state :=
  State (heap s) (doc s) (globals s) (config s) (toolbar s) (actions s)
        (lastEl s) (customRte s) (pfx s) (actionbar s) (subs s) (f (timers s)) (trace s).
Definition log (c : call) (s : state) : state :=
  State (heap s) (doc s) (globals s) (config s) (toolbar s) (actions s)
        (lastEl s) (customRte s) (pfx s) (actionbar s) (subs s) (timers s) (trace s ++ [c]).

(** ** Primitive operations of the language *)

(** What the collaborators answer.  [host_prop h k] is the property [k] of the
    collaborator [h]; [host_call t h m args] is what its method [m] returns
    when called as the [t]-th collaborator call ([None]: it throws);
    [host_dim] is the canvas service's [getTargetToElementDim]; [rte_new] is
    [new RichTextEditor({...}).enable()] of model/RichTextEditor. *)
Record hosts := Hosts {
  host_prop : positive → string → value;
  host_call : nat → positive → string → list value → option value;
  host_dim : nat → positive → value → value → option pos;
  rte_new : nat → value → value → string → string → value → option value;
}.

Context (H : hosts).

(** ToBoolean. *)
Definition truthy (v : value) : bool :=
  match v with
  | VUndef | VNull => false
  | VBool b => b
  | VNum n => num_truthy n
  | VStr s => negb (String.eqb s "")
  | VRef _ | VElem _ | VHost _ => true
  end.

(** ToString, on primitives ([None]: an object, whose conversion runs code
    of its own). *)
Definition to_string (v : value) : option string :=
  match v with
  | VUndef => Some "undefined"
  | VNull => Some "null"
  | VBool true => Some "true"
  | VBool false => Some "false"
  | VNum n => Some (num_to_string n)
  | VStr s => Some s
  | VRef _ | VElem _ | VHost _ => None
  end.

(** ToNumber, on the primitives that are not strings. *)
Definition to_number (v : value) : option num :=
  match v with
  | VUndef => Some num_nan
  | VNull => Some num_zero
  | VBool b => Some (num_of_bool b)
  | VNum n => Some n
  | VStr _ | VRef _ | VElem _ | VHost _ => None
  end.

(** The [+] operator: concatenation as soon as one operand is a string,
    addition of numbers otherwise. *)
Definition js_plus (a b : value) : option value :=
  match a, b with
  | VStr x, _ => y ← to_string b; Some (VStr (x +:+ y))
  | _, VStr y => x ← to_string a; Some (VStr (x +:+ y))
  | _, _ => x ← to_number a; y ← to_number b; Some (VNum (num_add x y))
  end.

(** A conversion that the model does not cover ends the call. *)
Definition prim {A} (o : option A) : M state A :=
  match o with
  | Some a => ret a
  | None => throw Unmodelled
  end.

(** [v.k]: reading a property.  Primitives other than [undefined] and [null]
    have none of the properties the module reads. *)
Definition get_prop (v : value) (k : string) : M state value :=
  match v with
  | VUndef | VNull => throw TypeError
  | VBool _ | VNum _ | VStr _ => ret VUndef
  | VRef l => λ s, match heap s !! l with
                   | Some c => Ret (default VUndef (props c !! k)) s
                   | None => Throw Unmodelled s
                   end
  | VElem _ => throw Unmodelled
  | VHost h => ret (host_prop H h k)
  end.

(** [v.k = x]: the code is a module, hence strict: writing a property of a
    primitive throws. *)
Definition set_prop (v : value) (k : string) (x : value) : M state unit :=
  match v with
  | VUndef | VNull | VBool _ | VNum _ | VStr _ => throw TypeError
  | VRef l => λ s, match heap s !! l with
                   | Some c => Ret tt (set_heap <[l := Cell (<[k := x]> (props c)) (items c)]> s)
                   | None => Throw Unmodelled s
                   end
  | VElem _ | VHost _ => throw Unmodelled
  end.

(** [k in v], prototype chains left out. *)
Definition has_prop (v : value) (k : string) : M state bool :=
  match v with
  | VUndef | VNull | VBool _ | VNum _ | VStr _ => throw TypeError
  | VRef l => λ s, match heap s !! l with
                   | Some c => Ret (bool_decide (is_Some (props c !! k))) s
                   | None => Throw Unmodelled s
                   end
  | VElem _ | VHost _ => throw Unmodelled
  end.

(** [v.m(args)]: only collaborators have methods; the call is logged. *)
Definition call_method (v : value) (m : string) (args : list value) : M state value :=
  match v with
  | VHost h => λ s, match host_call H (length (trace s)) h m args with
                    | Some r => Ret r (log (CallMethod h m args) s)
                    | None => Throw HostError (log (CallMethod h m args) s)
                    end
  | _ => throw TypeError
  end.

(** Allocation of a fresh object or array. *)
Definition alloc (c : cell) : M state value :=
  λ s, let l := fresh (dom (heap s)) in Ret (VRef l) (set_heap <[l := c]> s).

(** [document.createElement(tag)]. *)
Definition createElement (tag : string) : M state positive :=
  λ s, let e := fresh (dom (doc s)) in
       Ret e (set_doc <[e := Element tag "" ∅ None []]> s).

(** Updating the element a variable holds; [undefined.style] and the like
    throw. *)
Definition with_element (t : option positive) (f : element → element) : M state unit :=
  match t with
  | None => throw TypeError
  | Some e => λ s, match doc s !! e with
                   | Some el => Ret tt (set_doc <[e := f el]> s)
                   | None => Throw Unmodelled s
                   end
  end.

Definition set_className (c : string) (el : element) : element :=
  Element (tagName el) c (style el) (parent el) (listeners el).
Definition set_style (k v : string) (el : element) : element :=
  Element (tagName el) (className el) (<[k := v]> (style el)) (parent el) (listeners el).
Definition set_parent (p : value) (el : element) : element :=
  Element (tagName el) (className el) (style el) (Some p) (listeners el).
Definition add_listener (ev : string) (el : element) : element :=
  Element (tagName el) (className el) (style el) (parent el) (listeners el ++ [ev]).

Definition opt_elem (t : option positive) : value :=
  match t with Some e => VElem e | None => VUndef end.

(** [canvas.getTargetToElementDim(toolbar, lastEl, {event})]. *)
Definition getTargetToElementDim (canvas tb el : value) (event : string) : M state pos :=
  match canvas with
  | VHost c => λ s, match host_dim H (length (trace s)) c tb el with
                    | Some p => Ret p (log (CallDim c tb el event) s)
                    | None => Throw HostError (log (CallDim c tb el event) s)
                    end
  | _ => throw TypeError
  end.

(** [new RichTextEditor({el, actionbarContainer, classes, actionbar}).enable()]. *)
Definition new_rte (el container : value) (cls_actionbar cls_button : string)
    (ab : value) : M state value :=
  λ s, match rte_new H (length (trace s)) el container cls_actionbar cls_button ab with
       | Some r => Ret r (log (CallNewRte el container cls_actionbar cls_button ab) s)
       | None => Throw HostError (log (CallNewRte el container cls_actionbar cls_button ab) s)
       end.

(** [a.push(x)]: objects of the store hold data, none of their properties is
    callable, so only arrays can be pushed to. *)
Definition push (a x : value) : M state unit :=
  match a with
  | VRef l => λ s, match heap s !! l with
                   | Some (Cell ps (Some its)) =>
                       Ret tt (set_heap <[l := Cell ps (Some (its ++ [x]))]> s)
                   | Some (Cell _ None) => Throw TypeError s
                   | None => Throw Unmodelled s
                   end
  | VHost _ => call_method a "push" [x] ;; ret tt
  | _ => throw TypeError
  end.

(** [r[0]]. *)
Definition first_item (r : value) : M state value :=
  match r with
  | VRef l => λ s, match heap s !! l with
                   | Some (Cell ps (Some its)) => Ret (default VUndef (its !! 0%nat)) s
                   | Some (Cell ps None) => Ret (default VUndef (ps !! "0")) s
                   | None => Throw Unmodelled s
                   end
  | _ => get_prop r "0"
  end.

(** An identifier that no scope of the module binds is looked up in the
    global object; absent there, reading it throws. *)
Definition lookup_global (x : string) : M state value :=
  λ s, match globals s !! x with
       | Some v => Ret v s
       | None => Throw ReferenceError s
       end.

(** ** The event model

    Modelled from the spec: the event model [config.em] is a collaborator
    whose source is absent.  [on] and [off] follow the contract the module
    relies on: the event string names several events separated by blanks,
    [off(events, callback, context)] removes, for each of them, every
    registration of that callback with that context, [on] appends one
    registration for each of them, and firing an event runs the registered
    handlers in the order they were registered. *)
Definition em_matches (m : positive) (evs : list string) (cb : callback) (x : sub) : bool :=
  bool_decide (sub_em x = m) && bool_decide (sub_event x ∈ evs) && bool_decide (sub_cb x = cb).

Definition em_off (em : value) (events : string) (cb : callback) : M state unit :=
  match em with
  | VHost m => modify (set_subs (List.filter (λ x, negb (em_matches m (String.words events) cb x))))
  | _ => throw TypeError
  end.

Definition em_on (em : value) (events : string) (cb : callback) : M state unit :=
  match em with
  | VHost m => modify (set_subs (λ l, l ++ ((λ ev, Sub m ev cb) <$> String.words events)))
  | _ => throw TypeError
  end.

(** ** The methods of the module *)

(** The module's [defaults], [require('./config/config')], in the order
    [for (let name in defaults)] enumerates them. *)
Context (defaults : list (string * value)).

Fixpoint merge_defaults (cfg : value) (ds : list (string * value)) : M state unit :=
  match ds with
  | [] => ret tt
  | (name, v) :: ds' =>
      let* present := has_prop cfg name in
      (if present then ret tt else set_prop cfg name v) ;;
      merge_defaults cfg ds'
  end.

Definition init (opts : value) : M state unit :=
  let* cfg := (match opts with VUndef => alloc (Cell ∅ None) | _ => ret opts end) in
  modify (set_config cfg) ;;
  merge_defaults cfg defaults ;;
  let* ppfx := get_prop cfg "pStylePrefix" in
  (if truthy ppfx then
     let* sp := get_prop cfg "stylePrefix" in
     let* r := prim (js_plus ppfx sp) in
     set_prop cfg "stylePrefix" r
   else ret tt) ;;
  let* sp := get_prop cfg "stylePrefix" in
  modify (set_pfx sp) ;;
  let* a := get_prop cfg "actions" in
  let* acts := (if truthy a then ret a else alloc (Cell ∅ (Some []))) in
  modify (set_actions acts) ;;
  let* e := createElement "div" in
  modify (set_toolbar (Some e)) ;;
  let* p := prim (to_string ppfx) in
  with_element (Some e) (set_className (p +:+ "rte-toolbar")) ;;
  with_element (Some e) (add_listener "mousedown").

Definition postRender (ev : value) : M state unit :=
  let* model := get_prop ev "model" in
  let* canvas := call_method model "get" [VStr "Canvas"] in
  let* tb := gets toolbar in
  with_element tb (set_style "pointerEvents" "all") ;;
  let* tools := call_method canvas "getToolsEl" [] in
  call_method tools "appendChild" [opt_elem tb] ;;
  with_element tb (set_parent tools).

Definition add (name opts : value) : M state unit :=
  let* o := (match opts with VUndef => alloc (Cell ∅ None) | _ => ret opts end) in
  set_prop o "name" name ;;
  let* a := gets actions in
  push a o.

Definition get (command : value) : M state value :=
  let* commands := lookup_global "commands" in
  let* q := alloc (Cell {["command" := command]} None) in
  let* r := call_method commands "where" [q] in
  first_item r.

Definition getAll : M state value :=
  lookup_global "commands".

Definition udpatePosition : M state unit :=
  let un := "px" in
  let* cfg := gets config in
  let* em := get_prop cfg "em" in
  let* canvas := call_method em "get" [VStr "Canvas"] in
  let* tb := gets toolbar in
  let* el := gets lastEl in
  let* p := getTargetToElementDim canvas (opt_elem tb) el "rteToolbarPosUpdate" in
  let* adjust := get_prop cfg "adjustToolbar" in
  let top' := if truthy adjust && num_le (top p) (canvasTop p)
              then num_add (elementTop p) (elementHeight p)
              else top p in
  with_element tb (set_style "top" (num_to_string top' +:+ un)) ;;
  with_element tb (set_style "left" (num_to_string (left p) +:+ un)).

Definition event : string := "change:canvasOffset canvasScroll".

Definition enable (view rte : value) : M state value :=
  let* v := get_prop view "el" in
  modify (set_lastEl v) ;;
  let* cfg := gets config in
  let* em := get_prop cfg "em" in
  let* pfx := gets pfx in
  let* el := call_method view "getChildrenContainer" [] in
  let* customRte := gets customRte in
  let* actionbar := gets actionbar in
  let* tb := gets toolbar in
  let* p := prim (to_string pfx) in
  with_element tb (set_style "display" "") ;;
  let* rte' := (if truthy customRte
                then call_method customRte "enable" [el; rte]
                else new_rte el (opt_elem tb) (p +:+ "actionbar") (p +:+ "action") actionbar) in
  let* ab := get_prop rte' "actionbar" in
  (if truthy ab then modify (set_actionbar ab) else ret tt) ;;
  (if truthy em then
     modify (set_timers (λ t, t ++ [CbUdpatePosition])) ;;
     em_off em event CbUdpatePosition ;;
     em_on em event CbUdpatePosition
   else ret tt) ;;
  ret rte'.

Definition disable (view rte : value) : M state unit :=
  let* customRte := gets customRte in
  let* el := call_method view "getChildrenContainer" [] in
  (if truthy customRte
   then call_method customRte "disable" [el; rte] ;; ret tt
   else call_method rte "disable" [] ;; ret tt) ;;
  let* tb := gets toolbar in
  with_element tb (set_style "display" "none").

Definition getToolbarEl : M state value :=
  gets (λ s, opt_elem (toolbar s)).

(** ** Events and timers reaching the module *)

Definition run_callback (cb : callback) : M state unit :=
  match cb with
  | CbUdpatePosition => udpatePosition
  | CbForeign k => modify (log (CallForeign k))
  end.

Fixpoint run_callbacks (cbs : list callback) : M state unit :=
  match cbs with
  | [] => ret tt
  | cb :: rest => run_callback cb ;; run_callbacks rest
  end.

(** Firing the event [ev] on the event model [m]: the handlers registered
    for it run in the order of their registration (the contract of the event
    model described above). *)
Definition handlers (m : positive) (ev : string) (l : list sub) : list callback :=
  sub_cb <$> List.filter (λ x, bool_decide (sub_em x = m) && bool_decide (sub_event x = ev)) l.

Definition trigger (m : positive) (ev : string) : M state unit :=
  let* l := gets subs in
  run_callbacks (handlers m ev l).

(** A pending [setTimeout] callback runs. *)
Definition run_timer : M state unit :=
  λ s, match timers s with
       | [] => Ret tt s
       | cb :: rest => run_callback cb (set_timers (λ _, rest) s)
       end.

(** ** Sequences of calls

    What can happen to the module between two calls: a call of one of its
    methods, the assignment of [customRte] on the returned object, an event
    fired on an event model, a pending timer running. *)
Inductive op :=
| OInit (opts : value)
| OPostRender (ev : value)
| OAdd (name opts : value)
| OGet (command : value)
| OGetAll
| OUdpatePosition
| OEnable (view rte : value)
| ODisable (view rte : value)
| OGetToolbarEl
| OSetCustomRte (v : value)
| OTrigger (m : positive) (ev : string)
| OTimer.

Definition run_op (o : op) : M state unit :=
  match o with
  | OInit opts => init opts
  | OPostRender ev => postRender ev
  | OAdd name opts => add name opts
  | OGet command => get command ;; ret tt
  | OGetAll => getAll ;; ret tt
  | OUdpatePosition => udpatePosition
  | OEnable view rte => enable view rte ;; ret tt
  | ODisable view rte => disable view rte
  | OGetToolbarEl => getToolbarEl ;; ret tt
  | OSetCustomRte v => modify (set_customRte v)
  | OTrigger m ev => trigger m ev
  | OTimer => run_timer
  end.

(** The state an outcome leaves, whether the call returned or threw. *)
Definition final {A} (o : outcome state A) : state :=
  match o with
  | Ret _ s => s
  | Throw _ s => s
  end.

(** Calls follow one another; one that throws does not prevent the next. *)
Definition run_ops (os : list op) (s : state) : state :=
  foldl (λ s o, final (run_op o s)) s os.

Definition is_init (o : op) : bool :=
  match o with OInit _ => true | _ => false end.
Definition is_enable (o : op) : bool :=
  match o with OEnable _ _ => true | _ => false end.

(** The state [module.exports()] starts from: [config = {}], the other
    closure variables undefined, [customRte: null]. *)
Definition fresh_module (g : gmap string value) (h : gmap positive cell) : state :=
  let l := fresh (dom h) in
  State (<[l := Cell ∅ None]> h) ∅ g (VRef l) None VUndef VUndef VNull VUndef VUndef [] [] [].

(** * Reasoning about method bodies *)

(** A property of the state that a computation keeps, however it ends. *)
Definition preserves {A} (I : state → Prop) (m : M state A) : Prop :=
  ∀ s, I s → I (final (m s)).

(** Properties that do not look at one component of the state. *)
Definition heap_stable (I : state → Prop) : Prop := ∀ g s, I s → I (set_heap g s).
Definition timers_stable (I : state → Prop) : Prop := ∀ g s, I s → I (set_timers g s).

Section Preservation.
Context (I : state → Prop).

Lemma preserves_ret {A} (a : A) : preserves I (ret a).
Proof. intros s Hs. exact Hs. Qed.

Lemma preserves_throw {A} (e : error) : preserves I (throw (A := A) e).
Proof. intros s Hs. exact Hs. Qed.

Lemma preserves_gets {A} (f : state → A) : preserves I (gets f).
Proof. intros s Hs. exact Hs. Qed.

Lemma preserves_prim {A} (o : option A) : preserves I (prim o).
Proof. destruct o; intros s Hs; exact Hs. Qed.

Lemma preserves_modify (f : state → state) :
  (∀ s, I s → I (f s)) → preserves I (modify f).
Proof. intros Hf s Hs. apply Hf, Hs. Qed.

Lemma preserves_bind {A B} (m : M state A) (k : A → M state B) :
  preserves I m → (∀ a, preserves I (k a)) → preserves I (bind m k).
Proof.
  intros Hm Hk s Hs. unfold bind. specialize (Hm s Hs).
  destruct (m s) as [a s1|e s1]; simpl in *.
  - apply Hk, Hm.
  - exact Hm.
Qed.

Lemma preserves_get_prop v k : preserves I (get_prop v k).
Proof.
  intros s Hs. destruct v; simpl; try exact Hs.
  destruct (heap s !! l); exact Hs.
Qed.

Lemma preserves_has_prop v k : preserves I (has_prop v k).
Proof.
  intros s Hs. destruct v; simpl; try exact Hs.
  destruct (heap s !! l); exact Hs.
Qed.

Lemma preserves_lookup_global x : preserves I (lookup_global x).
Proof. intros s Hs. unfold lookup_global. destruct (globals s !! x); exact Hs. Qed.

Lemma preserves_first_item r : preserves I (first_item r).
Proof.
  intros s Hs. destruct r; simpl; try exact Hs.
  destruct (heap s !! l) as [[ps [its|]]|]; exact Hs.
Qed.

Lemma preserves_call_method v m args :
  (∀ h s, v = VHost h → I s → I (log (CallMethod h m args) s)) →
  preserves I (call_method v m args).
Proof.
  intros Ht s Hs. destruct v; simpl; try exact Hs.
  destruct (host_call H _ h m args); simpl; by apply Ht.
Qed.

Lemma preserves_getTargetToElementDim c tb el ev :
  (∀ h s, c = VHost h → I s → I (log (CallDim h tb el ev) s)) →
  preserves I (getTargetToElementDim c tb el ev).
Proof.
  intros Ht s Hs. destruct c; simpl; try exact Hs.
  destruct (host_dim H _ h tb el); simpl; by apply Ht.
Qed.

Lemma preserves_new_rte el c a b ab :
  (∀ s, I s → I (log (CallNewRte el c a b ab) s)) →
  preserves I (new_rte el c a b ab).
Proof.
  intros Ht s Hs. unfold new_rte.
  destruct (rte_new H _ el c a b ab); simpl; apply Ht, Hs.
Qed.

(** The value a computation starts by reading may be used to show that what
    follows keeps the property. *)
Lemma preserves_gets_bind {A B} (f : state → A) (k : A → M state B) :
  (∀ s, I s → I (final (k (f s) s))) → preserves I (bind (gets f) k).
Proof. intros Hk s Hs. by apply Hk. Qed.

Lemma preserves_set_prop v k x :
  (∀ l c s, v = VRef l → heap s !! l = Some c → I s →
     I (set_heap <[l := Cell (<[k := x]> (props c)) (items c)]> s)) →
  preserves I (set_prop v k x).
Proof.
  intros Hh s Hs. destruct v; simpl; try exact Hs.
  destruct (heap s !! l) eqn:E; simpl; [by apply Hh | exact Hs].
Qed.

Lemma preserves_alloc c :
  (∀ s, I s → I (set_heap <[fresh (dom (heap s)) := c]> s)) →
  preserves I (alloc c).
Proof. intros Hh s Hs. apply Hh, Hs. Qed.

Lemma preserves_push a x :
  (∀ l ps its s, a = VRef l → heap s !! l = Some (Cell ps (Some its)) → I s →
     I (set_heap <[l := Cell ps (Some (its ++ [x]))]> s)) →
  (∀ h s, a = VHost h → I s → I (log (CallMethod h "push" [x]) s)) →
  preserves I (push a x).
Proof.
  intros Hh Ht s Hs. destruct a; try exact Hs.
  - simpl. destruct (heap s !! l) as [[ps [its|]]|] eqn:E; simpl; [by eapply Hh| |]; exact Hs.
  - unfold push. apply preserves_bind; [by apply preserves_call_method | | exact Hs].
    intros r. apply preserves_ret.
Qed.

Lemma preserves_createElement tag :
  (∀ s, I s → I (set_doc <[fresh (dom (doc s)) := Element tag "" ∅ None []]> s)) →
  preserves I (createElement tag).
Proof. intros Hd s Hs. apply Hd, Hs. Qed.

Lemma preserves_with_element t f :
  (∀ e el s, t = Some e → doc s !! e = Some el → I s → I (set_doc <[e := f el]> s)) →
  preserves I (with_element t f).
Proof.
  intros Hd s Hs. destruct t as [e|]; simpl; [|exact Hs].
  destruct (doc s !! e) eqn:E; simpl; [by apply Hd | exact Hs].
Qed.

(** [em.off(...)] followed by [em.on(...)] on the same event model: either
    the first call throws and nothing changed, or both are carried out. *)
Lemma preserves_resubscribe em evs cb :
  (∀ m s, em = VHost m → I s →
     I (set_subs (λ l, List.filter (λ x, negb (em_matches m (String.words evs) cb x)) l
                       ++ ((λ ev, Sub m ev cb) <$> String.words evs)) s)) →
  preserves I (em_off em evs cb ;; em_on em evs cb).
Proof.
  intros Hd s Hs. destruct em; try exact Hs.
  by apply (Hd h s).
Qed.

End Preservation.

(** ** Calls that return: what each construct did *)

Definition reads (v : value) (k : string) (s : state) (x : value) : Prop :=
  get_prop v k s = Ret x s.
Definition has (v : value) (k : string) (s : state) (b : bool) : Prop :=
  has_prop v k s = Ret b s.

Lemma bind_Ret {A B} (m : M state A) (k : A → M state B) s b s' :
  bind m k s = Ret b s' → ∃ a s1, m s = Ret a s1 ∧ k a s1 = Ret b s'.
Proof.
  unfold bind. destruct (m s) as [a s1|e s1]; [|discriminate].
  intros Hk. by exists a, s1.
Qed.

Lemma ret_Ret {A} (a b : A) (s s' : state) : ret a s = Ret b s' → b = a ∧ s' = s.
Proof. unfold ret. intros Hr. by simplify_eq. Qed.

Lemma gets_Ret {A} (f : state → A) a s s' : gets f s = Ret a s' → a = f s ∧ s' = s.
Proof. unfold gets. intros Hr. by simplify_eq. Qed.

Lemma modify_Ret (f : state → state) u s s' : modify f s = Ret u s' → s' = f s.
Proof. unfold modify. intros Hr. by simplify_eq. Qed.

Lemma prim_Ret {A} (o : option A) a (s s' : state) :
  prim o s = Ret a s' → o = Some a ∧ s' = s.
Proof. destruct o; simpl; intros Hr; [|discriminate]. unfold ret in Hr. by simplify_eq. Qed.

Lemma get_prop_Ret v k x s s' : get_prop v k s = Ret x s' → s' = s ∧ reads v k s x.
Proof.
  unfold reads. destruct v; simpl; unfold ret, throw; intros Hr; try discriminate;
    try (by simplify_eq).
  destruct (heap s !! l); by simplify_eq.
Qed.

Lemma has_prop_Ret v k b s s' : has_prop v k s = Ret b s' → s' = s ∧ has v k s b.
Proof.
  unfold has. destruct v; simpl; unfold ret, throw; intros Hr; try discriminate.
  destruct (heap s !! l); by simplify_eq.
Qed.

Lemma lookup_global_Ret x v s s' :
  lookup_global x s = Ret v s' → globals s !! x = Some v ∧ s' = s.
Proof. unfold lookup_global. destruct (globals s !! x); intros Hr; by simplify_eq. Qed.

Lemma call_method_Ret v m args r s s' :
  call_method v m args s = Ret r s' →
  ∃ h, v = VHost h ∧ host_call H (length (trace s)) h m args = Some r ∧
       s' = log (CallMethod h m args) s.
Proof.
  destruct v; simpl; unfold throw; intros Hr; try discriminate.
  destruct (host_call H _ h m args) eqn:E; [|discriminate].
  exists h. by simplify_eq.
Qed.

Lemma getTargetToElementDim_Ret c tb el ev p s s' :
  getTargetToElementDim c tb el ev s = Ret p s' →
  ∃ h, c = VHost h ∧ host_dim H (length (trace s)) h tb el = Some p ∧
       s' = log (CallDim h tb el ev) s.
Proof.
  destruct c; simpl; unfold throw; intros Hr; try discriminate.
  destruct (host_dim H _ h tb el) eqn:E; [|discriminate].
  exists h. by simplify_eq.
Qed.

Lemma new_rte_Ret el c a b ab r s s' :
  new_rte el c a b ab s = Ret r s' →
  rte_new H (length (trace s)) el c a b ab = Some r ∧ s' = log (CallNewRte el c a b ab) s.
Proof.
  unfold new_rte. destruct (rte_new H _ el c a b ab); intros Hr; by simplify_eq.
Qed.

Lemma set_prop_Ret v k x u s s' :
  set_prop v k x s = Ret u s' →
  ∃ l c, v = VRef l ∧ heap s !! l = Some c ∧
         s' = set_heap <[l := Cell (<[k := x]> (props c)) (items c)]> s.
Proof.
  destruct v; simpl; unfold throw; intros Hr; try discriminate.
  destruct (heap s !! l) as [c|] eqn:E; [|discriminate].
  exists l, c. by simplify_eq.
Qed.

Lemma alloc_Ret c v s s' :
  alloc c s = Ret v s' →
  ∃ l, heap s !! l = None ∧ v = VRef l ∧ s' = set_heap <[l := c]> s.
Proof.
  unfold alloc. intros Hr. exists (fresh (dom (heap s))).
  split; [apply not_elem_of_dom, is_fresh|]. by simplify_eq.
Qed.

Lemma createElement_Ret tag e s s' :
  createElement tag s = Ret e s' →
  doc s !! e = None ∧ s' = set_doc <[e := Element tag "" ∅ None []]> s.
Proof.
  unfold createElement. intros Hr.
  assert (e = fresh (dom (doc s))) as -> by by simplify_eq.
  split; [apply not_elem_of_dom, is_fresh|]. by simplify_eq.
Qed.

Lemma with_element_Ret t f u s s' :
  with_element t f s = Ret u s' →
  ∃ e el, t = Some e ∧ doc s !! e = Some el ∧ s' = set_doc <[e := f el]> s.
Proof.
  destruct t as [e|]; simpl; unfold throw; intros Hr; [|discriminate].
  destruct (doc s !! e) as [el|] eqn:E; [|discriminate].
  exists e, el. by simplify_eq.
Qed.

Lemma em_off_Ret em evs cb u s s' :
  em_off em evs cb s = Ret u s' →
  ∃ m, em = VHost m ∧
       s' = set_subs (List.filter (λ x, negb (em_matches m (String.words evs) cb x))) s.
Proof.
  destruct em; simpl; unfold throw, modify; intros Hr; try discriminate.
  exists h. by simplify_eq.
Qed.

Lemma em_on_Ret em evs cb u s s' :
  em_on em evs cb s = Ret u s' →
  ∃ m, em = VHost m ∧
       s' = set_subs (λ l, l ++ ((λ ev, Sub m ev cb) <$> String.words evs)) s.
Proof.
  destruct em; simpl; unfold throw, modify; intros Hr; try discriminate.
  exists h. by simplify_eq.
Qed.

(** Inversion of a call that returned, construct by construct. *)
Ltac minv_step :=
  match goal with
  | Hr : bind _ _ _ = Ret _ _ |- _ =>
      let a := fresh "a" in let s1 := fresh "s" in let Hm := fresh "Hm" in
      apply bind_Ret in Hr as (a & s1 & Hm & Hr); cbv beta in Hr
  | Hr : ret _ _ = Ret _ _ |- _ => apply ret_Ret in Hr as [? ?]
  | Hr : throw _ _ = Ret _ _ |- _ => discriminate Hr
  | Hr : gets _ _ = Ret _ _ |- _ => apply gets_Ret in Hr as [? ?]
  | Hr : modify _ _ = Ret _ _ |- _ => apply modify_Ret in Hr
  | Hr : prim _ _ = Ret _ _ |- _ => apply prim_Ret in Hr as [? ?]
  | Hr : get_prop _ _ _ = Ret _ _ |- _ => apply get_prop_Ret in Hr as [? ?]
  | Hr : has_prop _ _ _ = Ret _ _ |- _ => apply has_prop_Ret in Hr as [? ?]
  | Hr : lookup_global _ _ = Ret _ _ |- _ => apply lookup_global_Ret in Hr as [? ?]
  | Hr : call_method _ _ _ _ = Ret _ _ |- _ => apply call_method_Ret in Hr as (? & ? & ? & ?)
  | Hr : getTargetToElementDim _ _ _ _ _ = Ret _ _ |- _ =>
      apply getTargetToElementDim_Ret in Hr as (? & ? & ? & ?)
  | Hr : new_rte _ _ _ _ _ _ = Ret _ _ |- _ => apply new_rte_Ret in Hr as [? ?]
  | Hr : set_prop _ _ _ _ = Ret _ _ |- _ => apply set_prop_Ret in Hr as (? & ? & ? & ? & ?)
  | Hr : alloc _ _ = Ret _ _ |- _ => apply alloc_Ret in Hr as (? & ? & ? & ?)
  | Hr : createElement _ _ = Ret _ _ |- _ => apply createElement_Ret in Hr as [? ?]
  | Hr : with_element _ _ _ = Ret _ _ |- _ => apply with_element_Ret in Hr as (? & ? & ? & ? & ?)
  | Hr : em_off _ _ _ _ = Ret _ _ |- _ => apply em_off_Ret in Hr as (? & ? & ?)
  | Hr : em_on _ _ _ _ = Ret _ _ |- _ => apply em_on_Ret in Hr as (? & ? & ?)
  | Hr : (if ?b then _ else _) _ = Ret _ _ |- _ => destruct b eqn:?
  | Hr : (match ?v with _ => _ end) _ = Ret _ _ |- _ => destruct v eqn:?
  end.

Ltac minv := repeat (minv_step; subst).

(** Projections of updated states. *)
Ltac sfields :=
  lazy beta iota delta
    [set_heap set_doc set_config set_toolbar set_actions set_lastEl
     set_customRte set_pfx set_actionbar set_subs set_timers log
     heap doc globals config toolbar actions lastEl customRte pfx actionbar
     subs timers trace] in *.

(** One step of a preservation proof: the rule of the construct at the head
    of the computation; what remains are the conditions on state updates. *)
Ltac pres_step :=
  lazymatch goal with
  | |- preserves _ (bind (em_off ?em ?ev ?cb) (λ _, em_on ?em ?ev ?cb)) =>
      apply preserves_resubscribe
  | |- preserves _ (bind _ _) => apply preserves_bind; [| intros ?]
  | |- preserves _ (ret _) => apply preserves_ret
  | |- preserves _ (throw _) => apply preserves_throw
  | |- preserves _ (gets _) => apply preserves_gets
  | |- preserves _ (modify _) => apply preserves_modify
  | |- preserves _ (prim _) => apply preserves_prim
  | |- preserves _ (get_prop _ _) => apply preserves_get_prop
  | |- preserves _ (has_prop _ _) => apply preserves_has_prop
  | |- preserves _ (lookup_global _) => apply preserves_lookup_global
  | |- preserves _ (first_item _) => apply preserves_first_item
  | |- preserves _ (call_method _ _ _) => apply preserves_call_method
  | |- preserves _ (getTargetToElementDim _ _ _ _) => apply preserves_getTargetToElementDim
  | |- preserves _ (new_rte _ _ _ _ _) => apply preserves_new_rte
  | |- preserves _ (set_prop _ _ _) => apply preserves_set_prop
  | |- preserves _ (alloc _) => apply preserves_alloc
  | |- preserves _ (push _ _) => apply preserves_push
  | |- preserves _ (createElement _) => apply preserves_createElement
  | |- preserves _ (with_element _ _) => apply preserves_with_element
  | |- preserves _ (if ?b then _ else _) => destruct b
  | |- preserves _ (match ?v with _ => _ end) => destruct v
  end.

Ltac pres := repeat pres_step.

Lemma preserves_run_callbacks I cbs :
  (∀ cb, preserves I (run_callback cb)) → preserves I (run_callbacks cbs).
Proof.
  intros Hcb. induction cbs as [|cb rest IH]; simpl.
  - apply preserves_ret.
  - apply preserves_bind; [apply Hcb | intros _; exact IH].
Qed.

Lemma preserves_run_timer I :
  timers_stable I → (∀ cb, preserves I (run_callback cb)) → preserves I run_timer.
Proof.
  intros Ht Hcb s Hs. unfold run_timer.
  destruct (timers s) as [|cb rest]; [exact Hs|].
  apply Hcb, Ht, Hs.
Qed.

Lemma preserves_run_ops I os :
  (∀ o, o ∈ os → preserves I (run_op o)) → ∀ s, I s → I (run_ops os s).
Proof.
  unfold run_ops. induction os as [|o os IH]; intros Ho s Hs; simpl; [exact Hs|].
  apply IH.
  - intros o' Ho'. apply Ho. by right.
  - apply Ho; [by left | exact Hs].
Qed.

(** ** The toolbar element *)

(** The variable [toolbar] holds the element [e], a [div] with the listeners
    [ls]. *)
Definition toolbar_is (e : positive) (ls : list string) (s : state) : Prop :=
  toolbar s = Some e ∧
  ∃ el, doc s !! e = Some el ∧ tagName el = "div" ∧ listeners el = ls.

Lemma toolbar_is_set_doc e ls e' el' (f : element → element) s :
  (∀ x, tagName (f x) = tagName x ∧ listeners (f x) = listeners x) →
  doc s !! e' = Some el' → toolbar_is e ls s →
  toolbar_is e ls (set_doc <[e' := f el']> s).
Proof.
  intros Hf He' [Ht (el & Hel & Htag & Hls)]. split; [exact Ht|]. simpl.
  destruct (decide (e' = e)) as [->|Hne].
  - exists (f el'). rewrite lookup_insert_eq. split; [done|].
    destruct (Hf el') as [-> ->]. by simplify_eq.
  - exists el. by rewrite lookup_insert_ne.
Qed.

Ltac toolbar_is_side :=
  try (intros; eapply toolbar_is_set_doc; [intros []; by split | eassumption..]);
  intros; assumption.

Lemma toolbar_is_udpatePosition e ls : preserves (toolbar_is e ls) udpatePosition.
Proof. unfold udpatePosition. pres; toolbar_is_side. Qed.

Lemma toolbar_is_run_callback e ls cb : preserves (toolbar_is e ls) (run_callback cb).
Proof.
  destruct cb; simpl; [apply toolbar_is_udpatePosition|].
  apply preserves_modify. intros s Hs. exact Hs.
Qed.

Lemma toolbar_is_run_op e ls o :
  is_init o = false → preserves (toolbar_is e ls) (run_op o).
Proof.
  destruct o; simpl; intros Hi; try discriminate.
  - unfold postRender. pres; toolbar_is_side.
  - unfold add. pres; toolbar_is_side.
  - unfold get. pres; toolbar_is_side.
  - unfold getAll. pres; toolbar_is_side.
  - apply toolbar_is_udpatePosition.
  - unfold enable. pres; toolbar_is_side.
  - unfold disable. pres; toolbar_is_side.
  - unfold getToolbarEl. pres; toolbar_is_side.
  - pres; toolbar_is_side.
  - unfold trigger. apply preserves_bind; [apply preserves_gets|intros l].
    apply preserves_run_callbacks, toolbar_is_run_callback.
  - apply preserves_run_timer; [|apply toolbar_is_run_callback].
    intros g s Hs. exact Hs.
Qed.

(** ** Objects of the store *)

Lemma set_heap_id (s : state) : set_heap (λ _, heap s) s = s.
Proof. by destruct s. Qed.

Lemma reads_ref l c k s x :
  heap s !! l = Some c → reads (VRef l) k s x → x = default VUndef (props c !! k).
Proof. unfold reads. simpl. intros ->. intros Hr. by simplify_eq. Qed.

Lemma has_ref l c k s b :
  heap s !! l = Some c → has (VRef l) k s b → b = bool_decide (is_Some (props c !! k)).
Proof. unfold has. simpl. intros ->. intros Hr. by simplify_eq. Qed.

(** Reading a property looks at the store only. *)
Lemma reads_same_heap v k x s1 s2 :
  heap s1 = heap s2 → reads v k s1 x → reads v k s2 x.
Proof.
  unfold reads. intros Hh. destruct v; simpl; unfold ret, throw; intros Hr;
    try discriminate; try (by simplify_eq).
  rewrite <- Hh. destruct (heap s1 !! l); by simplify_eq.
Qed.

(** ** [init]: merging the defaults into the options *)

Lemma union_cons_present (ps : gmap string value) name v ds :
  is_Some (ps !! name) → ps ∪ list_to_map ((name, v) :: ds) = ps ∪ list_to_map ds.
Proof.
  intros [w Hw]. apply map_eq. intros i.
  rewrite !lookup_union, list_to_map_cons, lookup_insert.
  case_decide; [subst i|done].
  rewrite Hw. by destruct (list_to_map ds !! name).
Qed.

Lemma union_cons_absent (ps : gmap string value) name v ds :
  ps !! name = None →
  <[name := v]> ps ∪ list_to_map ds = ps ∪ list_to_map ((name, v) :: ds).
Proof.
  intros Hn. rewrite list_to_map_cons.
  rewrite <- insert_union_r by done. by rewrite insert_union_l.
Qed.

(** The loop over [defaults] leaves in the configuration object the union of
    its properties with the defaults, its own properties taking precedence. *)
Lemma merge_defaults_Ret l ds : ∀ c s s',
  heap s !! l = Some c →
  merge_defaults (VRef l) ds s = Ret tt s' →
  s' = set_heap (λ _, <[l := Cell (props c ∪ list_to_map ds) (items c)]> (heap s)) s.
Proof.
  induction ds as [|[name v] ds IH]; intros c s s' Hl Hr.
  - simpl in Hr. apply ret_Ret in Hr as [_ ->].
    rewrite list_to_map_nil, (right_id_L ∅ (∪)).
    destruct c as [ps its]; simpl. rewrite insert_id by done.
    by rewrite set_heap_id.
  - cbn [merge_defaults] in Hr. minv.
    + match goal with Hh : has _ _ _ _ |- _ => apply (has_ref _ _ _ _ _ Hl) in Hh end.
      apply (IH _ _ _ Hl) in Hr. subst s'.
      match goal with Hh : true = _ |- _ => symmetry in Hh; apply bool_decide_eq_true in Hh end.
      by rewrite union_cons_present.
    + match goal with Hh : has _ _ _ _ |- _ => apply (has_ref _ _ _ _ _ Hl) in Hh end.
      match goal with Hh : false = _ |- _ => symmetry in Hh; apply bool_decide_eq_false in Hh end.
      simplify_eq.
      eapply IH in Hr; [|simpl; apply lookup_insert_eq].
      subst s'. simpl. unfold set_heap; simpl.
      rewrite insert_insert_eq, union_cons_absent; [done|].
      by apply eq_None_not_Some.
Qed.

(** The configuration object once [init] has returned: the merged
    properties, with [stylePrefix] overwritten when [pStylePrefix] is truthy;
    the values the rest of [init] goes on with. *)
Lemma init_Ret l c s s' :
  heap s !! l = Some c →
  init (VRef l) s = Ret tt s' →
  let merged := props c ∪ list_to_map defaults in
  let ppfx := default VUndef (merged !! "pStylePrefix") in
  let sp := default VUndef (merged !! "stylePrefix") in
  ∃ ps', config s' = VRef l ∧ heap s' !! l = Some (Cell ps' (items c)) ∧
         pfx s' = default VUndef (ps' !! "stylePrefix") ∧
         if truthy ppfx
         then ∃ r, js_plus ppfx sp = Some r ∧ ps' = <["stylePrefix" := r]> merged
         else ps' = merged.
Proof.
  cbv zeta. intros Hl Hr. unfold init in Hr.
  apply bind_Ret in Hr as (cfg & s1 & Hm & Hr). apply ret_Ret in Hm as [-> ->].
  apply bind_Ret in Hr as (u & s1 & Hm & Hr). apply modify_Ret in Hm. subst s1.
  apply bind_Ret in Hr as (u' & s1 & Hm & Hr). destruct u'.
  apply (merge_defaults_Ret l defaults c) in Hm; [|exact Hl]. simpl in Hm.
  subst s1. destruct s as [h d g cfg tb acts le cr pf ab sb tm tr].
  minv; sfields; simplify_eq.
  all: repeat match goal with
         | Hx : <[?l := _]> _ !! ?l = Some _ |- _ =>
             rewrite lookup_insert_eq in Hx; simplify_eq
         end.
  all: repeat match goal with
         | Hx : reads (VRef ?l) _ _ _ |- _ =>
             eapply reads_ref in Hx; [|sfields; apply lookup_insert_eq]
         end.
  all: cbn [props items] in *; subst.
  all: repeat match goal with
         | Hx : <[?l := _]> _ !! ?l' = None |- _ =>
             apply lookup_insert_None in Hx as [Hx ?]
         end.
  all: eexists; split; [reflexivity|]; split;
    [rewrite ?lookup_insert_ne by done; rewrite lookup_insert_eq; cbn [items]; reflexivity|].
  all: split; [reflexivity|].
  all: match goal with
       | Ht : truthy ?x = _ |- context [if truthy ?x then _ else _] => rewrite Ht
       end.
  all: eauto.
Qed.

(** The reading of C6 that the code does not satisfy: every property the
    caller supplied in [opts] has, after [init], the value it had before. *)
Definition init_keeps_supplied (opts : positive) (s s' : state) : Prop :=
  ∀ c k v, heap s !! opts = Some c → props c !! k = Some v →
    ∃ c', heap s' !! opts = Some c' ∧ props c' !! k = Some v.

(** C6, amended: [init(opts)] leaves every property supplied in [opts] other
    than [stylePrefix] unchanged ([stylePrefix] too when the resulting
    [pStylePrefix] is falsy), copies into the configuration exactly those
    defaults whose names are absent from [opts], and, when the resulting
    [pStylePrefix] is truthy, overwrites [stylePrefix], supplied or not, with
    [pStylePrefix + stylePrefix], the concatenation of the two when they are
    strings; [this.pfx] is the resulting [stylePrefix]. *)
Theorem init_merges_config l c s s' :
  heap s !! l = Some c →
  init (VRef l) s = Ret tt s' →
  ∃ c', config s' = VRef l ∧ heap s' !! l = Some c' ∧
    (∀ k v, k ≠ "stylePrefix" → props c !! k = Some v → props c' !! k = Some v) ∧
    (∀ k, k ≠ "stylePrefix" → props c !! k = None →
          props c' !! k = (list_to_map defaults : gmap string value) !! k) ∧
    let merged := props c ∪ list_to_map defaults in
    let ppfx := default VUndef (merged !! "pStylePrefix") in
    let sp := default VUndef (merged !! "stylePrefix") in
    ppfx = default VUndef (props c' !! "pStylePrefix") ∧
    (truthy ppfx = false →
       props c' !! "stylePrefix" = merged !! "stylePrefix" ∧ pfx s' = sp) ∧
    (truthy ppfx = true →
       ∃ r, js_plus ppfx sp = Some r ∧ props c' !! "stylePrefix" = Some r ∧ pfx s' = r) ∧
    (∀ a b, truthy ppfx = true → ppfx = VStr a → sp = VStr b →
       props c' !! "stylePrefix" = Some (VStr (a +:+ b)) ∧ pfx s' = VStr (a +:+ b)).
Proof.
  intros Hl Hr. destruct (init_Ret l c s s' Hl Hr) as (ps' & Hcfg & Hh & Hpfx & Hps).
  exists (Cell ps' (items c)). split; [exact Hcfg|]. split; [exact Hh|].
  cbn [props]. cbv zeta.
  set (merged := props c ∪ list_to_map defaults) in *.
  assert (Hother : ∀ k, k ≠ "stylePrefix" → ps' !! k = merged !! k).
  { intros k Hk. destruct (truthy _); [|by subst ps'].
    destruct Hps as (r & _ & ->). by rewrite lookup_insert_ne. }
  split; [|split; [|split; [|split; [|split]]]].
  - intros k v Hk Hv. rewrite (Hother k Hk). unfold merged.
    by rewrite (lookup_union_Some_l _ _ _ _ Hv).
  - intros k Hk Hv. rewrite (Hother k Hk). unfold merged.
    by rewrite lookup_union_r.
  - by rewrite Hother.
  - intros Ht. rewrite Ht in Hps. subst ps'. by rewrite Hpfx.
  - intros Ht. rewrite Ht in Hps. destruct Hps as (r & Hplus & ->).
    exists r. rewrite Hpfx, lookup_insert_eq. by repeat split.
  - intros a b Ht Ha Hb. rewrite Ht in Hps. destruct Hps as (r & Hplus & ->).
    rewrite Ha, Hb in Hplus. simpl in Hplus. simplify_eq.
    by rewrite Hpfx, lookup_insert_eq.
Qed.

Lemma preserves_merge_defaults I cfg ds :
  heap_stable I → preserves I (merge_defaults cfg ds).
Proof.
  intros Hh. induction ds as [|[name v] ds IH]; cbn [merge_defaults].
  - apply preserves_ret.
  - pres; try exact IH; intros; by apply Hh.
Qed.

(** [init] creates the element that [toolbar] holds from then on. *)
Lemma init_creates_toolbar opts s s' :
  init opts s = Ret tt s' →
  ∃ e, doc s !! e = None ∧ toolbar_is e ["mousedown"] s'.
Proof.
  intros Hr. unfold init in Hr.
  apply bind_Ret in Hr as (cfg & s1 & Hcfg & Hr).
  apply bind_Ret in Hr as (u & s2 & Hm & Hr). apply modify_Ret in Hm.
  apply bind_Ret in Hr as (u' & s3 & Hmerge & Hr).
  assert (Hdoc : doc s3 = doc s).
  { pose proof (preserves_merge_defaults (λ x, doc x = doc s) cfg defaults) as Hp.
    specialize (Hp (λ g x Hx, Hx) s2). rewrite Hmerge in Hp. apply Hp.
    subst s2. destruct opts; minv; reflexivity. }
  clear Hcfg Hm Hmerge. destruct s3 as [h d g cf tb acts le cr pf ab sb tm tr].
  cbn [doc] in Hdoc. subst d.
  minv; sfields; simplify_eq.
  all: repeat match goal with
         | Hx : <[?l := _]> _ !! ?l = Some _ |- _ =>
             rewrite lookup_insert_eq in Hx; simplify_eq
         end.
  all: eexists; split; [eassumption|].
  all: split; [reflexivity|]; sfields.
  all: eexists; split; [apply lookup_insert_eq|]; by split.
Qed.

(** C10: once [init] has run, [getToolbarEl()] returns the [div] that [init]
    created, whatever calls other than [init] were made in between; that
    element stays a [div] with the listener [init] gave it. *)
Theorem toolbar_element_is_stable opts s s' :
  init opts s = Ret tt s' →
  ∃ e, doc s !! e = None ∧
    ∀ os, forallb (λ o, negb (is_init o)) os = true →
      getToolbarEl (run_ops os s') = Ret (VElem e) (run_ops os s') ∧
      toolbar_is e ["mousedown"] (run_ops os s').
Proof.
  intros Hr. destruct (init_creates_toolbar _ _ _ Hr) as (e & Hnew & Htb).
  exists e. split; [exact Hnew|]. intros os Hos.
  assert (Hinv : toolbar_is e ["mousedown"] (run_ops os s')).
  { apply preserves_run_ops; [|exact Htb].
    intros o Ho. apply toolbar_is_run_op.
    rewrite forallb_forall in Hos. apply list_elem_of_In, Hos in Ho.
    by destruct (is_init o). }
  split; [|exact Hinv].
  unfold getToolbarEl, gets. destruct Hinv as [-> _]. reflexivity.
Qed.

(** ** The element being edited *)

(** The geometry query [c] is about the element [x]. *)
Definition dim_on (x : value) (c : call) : Prop :=
  match c with
  | CallDim _ _ el _ => el = x
  | _ => True
  end.

(** [lastEl] is [x], and every geometry query logged from the [n]-th call on
    is about [x]. *)
Definition positions_on (x : value) (n : nat) (s : state) : Prop :=
  lastEl s = x ∧ Forall (dim_on x) (drop n (trace s)).

Lemma positions_on_log x n c s :
  dim_on x c → positions_on x n s → positions_on x n (log c s).
Proof.
  intros Hc [Hl Hf]. split; [exact Hl|]. cbn [log trace].
  rewrite drop_app. apply Forall_app. split; [exact Hf|].
  apply Forall_drop. by constructor.
Qed.

Ltac positions_on_side :=
  unfold heap_stable;
  try (intros; apply positions_on_log; [exact I|assumption]);
  intros; assumption.

Lemma positions_on_udpatePosition x n : preserves (positions_on x n) udpatePosition.
Proof.
  unfold udpatePosition. cbv zeta.
  apply preserves_bind; [pres_step|intros cfg].
  apply preserves_bind; [pres_step|intros em].
  apply preserves_bind; [pres_step; positions_on_side|intros canvas].
  apply preserves_bind; [pres_step|intros tb].
  apply preserves_gets_bind. intros s Hs.
  destruct Hs as [Hl Hf]. rewrite Hl.
  match goal with
  | |- ?I (final (?m s)) => assert (Hp : preserves I m); [|by apply Hp]
  end.
  pres; try positions_on_side.
  intros h s0 _ Hs0. by apply positions_on_log.
Qed.

Lemma positions_on_run_callback x n cb : preserves (positions_on x n) (run_callback cb).
Proof.
  destruct cb; simpl; [apply positions_on_udpatePosition|].
  apply preserves_modify. intros s Hs. by apply positions_on_log.
Qed.

Lemma positions_on_run_op x n o :
  is_enable o = false → preserves (positions_on x n) (run_op o).
Proof.
  destruct o; simpl; intros Hi; try discriminate.
  - unfold init. pres; try apply preserves_merge_defaults; positions_on_side.
  - unfold postRender. pres; positions_on_side.
  - unfold add. pres; positions_on_side.
  - unfold get. pres; positions_on_side.
  - unfold getAll. pres; positions_on_side.
  - apply positions_on_udpatePosition.
  - unfold disable. pres; positions_on_side.
  - unfold getToolbarEl. pres; positions_on_side.
  - pres; positions_on_side.
  - unfold trigger. apply preserves_bind; [apply preserves_gets|intros l].
    apply preserves_run_callbacks, positions_on_run_callback.
  - apply preserves_run_timer; [|apply positions_on_run_callback].
    intros g s Hs. exact Hs.
Qed.

(** What [enable] does first: [lastEl = view.el]. *)
Lemma enable_lastEl view rte s r s' :
  enable view rte s = Ret r s' → reads view "el" s (lastEl s').
Proof.
  intros Hr. unfold enable in Hr.
  apply bind_Ret in Hr as (v & s1 & Hv & Hr).
  apply get_prop_Ret in Hv as [-> Hv].
  apply bind_Ret in Hr as (u & s1 & Hm & Hr). apply modify_Ret in Hm. subst s1.
  match type of Hr with
  | ?m _ = _ =>
      pose proof (Hp := λ Hpres : preserves (λ x, lastEl x = v) m, Hpres (set_lastEl v s) eq_refl)
  end.
  rewrite Hr in Hp. cbn [final] in Hp. rewrite Hp; [exact Hv|].
  pres; intros; assumption.
Qed.

(** ** Calls that go through: running a method forward *)

Lemma bind_step {A B} (m : M state A) (k : A → M state B) s a s1 :
  m s = Ret a s1 → bind m k s = k a s1.
Proof. unfold bind. by intros ->. Qed.

Lemma bind_gets {A B} (f : state → A) (k : A → M state B) s :
  bind (gets f) k s = k (f s) s.
Proof. reflexivity. Qed.

Lemma bind_ret {A B} (a : A) (k : A → M state B) s : bind (ret a) k s = k a s.
Proof. reflexivity. Qed.

Lemma get_prop_ref l c k s :
  heap s !! l = Some c → get_prop (VRef l) k s = Ret (default VUndef (props c !! k)) s.
Proof. simpl. by intros ->. Qed.

Lemma call_method_host h m args r s :
  host_call H (length (trace s)) h m args = Some r →
  call_method (VHost h) m args s = Ret r (log (CallMethod h m args) s).
Proof. simpl. by intros ->. Qed.

Lemma getTargetToElementDim_host h tb el ev p s :
  host_dim H (length (trace s)) h tb el = Some p →
  getTargetToElementDim (VHost h) tb el ev s = Ret p (log (CallDim h tb el ev) s).
Proof. simpl. by intros ->. Qed.

Lemma with_element_some e el f s :
  doc s !! e = Some el → with_element (Some e) f s = Ret tt (set_doc <[e := f el]> s).
Proof. simpl. by intros ->. Qed.

(** ** [udpatePosition] *)

(** The [top] the toolbar is given for the geometry [p]. *)
Definition adjusted_top (adjust : value) (p : pos) : num :=
  if truthy adjust && num_le (top p) (canvasTop p)
  then num_add (elementTop p) (elementHeight p)
  else top p.

(** What a position update that goes through does: it asks the event model
    for the canvas, asks the canvas for the geometry of the toolbar relative
    to [lastEl], and writes [top] and [left]. *)
Lemma udpatePosition_runs s lc c m cv tb el p :
  config s = VRef lc → heap s !! lc = Some c →
  props c !! "em" = Some (VHost m) →
  host_call H (length (trace s)) m "get" [VStr "Canvas"] = Some (VHost cv) →
  toolbar s = Some tb → doc s !! tb = Some el →
  host_dim H (S (length (trace s))) cv (VElem tb) (lastEl s) = Some p →
  udpatePosition s =
    Ret tt
      (set_doc
         (λ d, <[tb := set_style "left" (num_to_string (left p) +:+ "px")
                         (set_style "top"
                            (num_to_string
                               (adjusted_top (default VUndef (props c !! "adjustToolbar")) p)
                             +:+ "px") el)]> d)
         (log (CallDim cv (VElem tb) (lastEl s) "rteToolbarPosUpdate")
            (log (CallMethod m "get" [VStr "Canvas"]) s))).
Proof.
  destruct s as [h d g cfg t acts le cr pf ab sb tm tr]. cbn.
  intros -> Hc Hem Hget -> Hel Hdim.
  unfold udpatePosition. cbv zeta.
  erewrite bind_step; [|by apply get_prop_ref]. rewrite Hem. cbn [default].
  erewrite bind_step; [|by apply call_method_host].
  rewrite !bind_gets. sfields. cbn [opt_elem].
  erewrite bind_step; [|apply getTargetToElementDim_host; sfields;
                         rewrite length_app, Nat.add_comm; exact Hdim].
  erewrite bind_step; [|by apply get_prop_ref].
  erewrite bind_step; [|by apply with_element_some].
  erewrite with_element_some; [|sfields; apply lookup_insert_eq].
  sfields. unfold adjusted_top. by rewrite insert_insert_eq.
Qed.

(** C5: [udpatePosition] asks the canvas service for the geometry of the
    toolbar relative to the last edited element; with [config.adjustToolbar]
    truthy and the computed top not above the canvas top, the toolbar's [top]
    becomes [elementTop + elementHeight] (in px), otherwise the computed top;
    its [left] is always the computed left. *)
Theorem udpatePosition_places_toolbar s lc c m cv tb el p :
  config s = VRef lc → heap s !! lc = Some c →
  props c !! "em" = Some (VHost m) →
  host_call H (length (trace s)) m "get" [VStr "Canvas"] = Some (VHost cv) →
  toolbar s = Some tb → doc s !! tb = Some el →
  host_dim H (S (length (trace s))) cv (VElem tb) (lastEl s) = Some p →
  let adjust := default VUndef (props c !! "adjustToolbar") in
  ∃ s' el',
    udpatePosition s = Ret tt s' ∧
    trace s' = trace s ++ [CallMethod m "get" [VStr "Canvas"];
                           CallDim cv (VElem tb) (lastEl s) "rteToolbarPosUpdate"] ∧
    doc s' !! tb = Some el' ∧
    style el' !! "left" = Some (num_to_string (left p) +:+ "px") ∧
    (truthy adjust = true → num_le (top p) (canvasTop p) = true →
       style el' !! "top" =
         Some (num_to_string (num_add (elementTop p) (elementHeight p)) +:+ "px")) ∧
    (truthy adjust = false ∨ num_le (top p) (canvasTop p) = false →
       style el' !! "top" = Some (num_to_string (top p) +:+ "px")).
Proof.
  intros Hcfg Hc Hem Hget Htb Hel Hdim adjust.
  eexists _, _. split; [by eapply udpatePosition_runs|].
  sfields. split; [by rewrite <- app_assoc|].
  split; [apply lookup_insert_eq|]. cbn [set_style style].
  split; [apply lookup_insert_eq|].
  rewrite lookup_insert_ne by done. rewrite lookup_insert_eq.
  unfold adjusted_top. fold adjust. split.
  - by intros -> ->.
  - intros [-> | ->]; [done|]. by rewrite andb_false_r.
Qed.

(** A position update that returns: the canvas it asked, the answer it got
    and what it wrote. *)
Lemma udpatePosition_Ret s s' :
  udpatePosition s = Ret tt s' →
  ∃ m cv tb el p adjust,
    reads (config s) "em" s (VHost m) ∧
    host_call H (length (trace s)) m "get" [VStr "Canvas"] = Some (VHost cv) ∧
    toolbar s = Some tb ∧ doc s !! tb = Some el ∧
    host_dim H (S (length (trace s))) cv (VElem tb) (lastEl s) = Some p ∧
    reads (config s) "adjustToolbar" s adjust ∧
    trace s' = trace s ++ [CallMethod m "get" [VStr "Canvas"];
                           CallDim cv (VElem tb) (lastEl s) "rteToolbarPosUpdate"] ∧
    doc s' = <[tb := set_style "left" (num_to_string (left p) +:+ "px")
                       (set_style "top"
                          (num_to_string (adjusted_top adjust p) +:+ "px") el)]> (doc s).
Proof.
  intros Hr. unfold udpatePosition in Hr. cbv zeta in Hr.
  destruct s as [h d g cfg t acts le cr pf ab sb tm tr].
  minv; sfields; subst; simplify_eq.
  repeat match goal with
         | Hx : <[?l := _]> _ !! ?l = Some _ |- _ =>
             rewrite lookup_insert_eq in Hx; simplify_eq
         end.
  rewrite ?length_app in *. cbn [length opt_elem] in *. rewrite ?Nat.add_1_r in *.
  eexists _, _, _, _, _, _.
  split; [eassumption|]. split; [eassumption|]. split; [reflexivity|].
  split; [eassumption|]. split; [eassumption|].
  split; [eapply reads_same_heap; [|eassumption]; reflexivity|].
  split; [by rewrite <- app_assoc|].
  unfold adjusted_top. by rewrite insert_insert_eq.
Qed.

(** C3: after [enable(view, rte)] has returned, [lastEl] is [view.el] and
    stays so through every call that is not [enable]; every geometry query
    logged in the meantime is about that element; and a position update made
    then, when it returns, has asked the canvas for the geometry of the
    toolbar relative to that element and has written [top] and [left] from
    the answer. *)
Theorem enable_records_lastEl view rte s r s' :
  enable view rte s = Ret r s' →
  reads view "el" s (lastEl s') ∧
  ∀ os, forallb (λ o, negb (is_enable o)) os = true →
    lastEl (run_ops os s') = lastEl s' ∧
    (∀ c tb el ev,
       CallDim c tb el ev ∈ drop (length (trace s')) (trace (run_ops os s')) →
       el = lastEl s') ∧
    ∀ s3, udpatePosition (run_ops os s') = Ret tt s3 →
      ∃ m cv tb p adjust el',
        toolbar (run_ops os s') = Some tb ∧
        host_dim H (S (length (trace (run_ops os s')))) cv (VElem tb) (lastEl s') = Some p ∧
        trace s3 = trace (run_ops os s')
                   ++ [CallMethod m "get" [VStr "Canvas"];
                       CallDim cv (VElem tb) (lastEl s') "rteToolbarPosUpdate"] ∧
        reads (config (run_ops os s')) "adjustToolbar" (run_ops os s') adjust ∧
        doc s3 !! tb = Some el' ∧
        style el' !! "top" = Some (num_to_string (adjusted_top adjust p) +:+ "px") ∧
        style el' !! "left" = Some (num_to_string (left p) +:+ "px").
Proof.
  intros Hr. split; [by eapply enable_lastEl|]. intros os Hos.
  assert (Hinv : positions_on (lastEl s') (length (trace s')) (run_ops os s')).
  { apply preserves_run_ops.
    - intros o Ho. apply positions_on_run_op.
      rewrite forallb_forall in Hos. apply list_elem_of_In, Hos in Ho.
      by destruct (is_enable o).
    - split; [reflexivity|]. rewrite drop_all. constructor. }
  destruct Hinv as [Hl Hf]. split; [exact Hl|]. split.
  - intros c tb el ev Hin. rewrite Forall_forall in Hf. apply (Hf _ Hin).
  - intros s3 Hrun.
    destruct (udpatePosition_Ret _ _ Hrun)
      as (m & cv & tb & el & p & adjust & _ & _ & Htb & Hel & Hdim & Hadj & Htr & Hdoc).
    rewrite Hl in Hdim, Htr.
    exists m, cv, tb, p, adjust,
      (set_style "left" (num_to_string (left p) +:+ "px")
         (set_style "top" (num_to_string (adjusted_top adjust p) +:+ "px") el)).
    split; [exact Htb|]. split; [exact Hdim|]. split; [exact Htr|].
    split; [exact Hadj|]. split; [rewrite Hdoc; apply lookup_insert_eq|].
    cbn [set_style style]. split; [|apply lookup_insert_eq].
    rewrite lookup_insert_ne by done. apply lookup_insert_eq.
Qed.

(** ** [add] *)

(** The items of the array [actions] holds. *)
Definition action_list (s : state) : option (list value) :=
  match actions s with
  | VRef l => c ← heap s !! l; items c
  | _ => None
  end.

(** The property [k] of the [i]-th registered action. *)
Definition registered (i : nat) (k : string) (s : state) : option value :=
  its ← action_list s;
  a ← its !! i;
  match get_prop a k s with
  | Ret v _ => Some v
  | Throw _ _ => None
  end.

Lemma set_prop_ref l c k x s :
  heap s !! l = Some c →
  set_prop (VRef l) k x s =
    Ret tt (set_heap <[l := Cell (<[k := x]> (props c)) (items c)]> s).
Proof. simpl. by intros ->. Qed.

Lemma push_ref l ps its x s :
  heap s !! l = Some (Cell ps (Some its)) →
  push (VRef l) x s = Ret tt (set_heap <[l := Cell ps (Some (its ++ [x]))]> s).
Proof. simpl. by intros ->. Qed.

(** [add] with an object of the store for options: the object gets its
    [name], and the reference to it goes at the end of the array. *)
Lemma add_ref_runs name lo c l ca its s :
  actions s = VRef l → heap s !! l = Some ca → items ca = Some its →
  heap s !! lo = Some c →
  ∃ s' ps' c',
    add name (VRef lo) s = Ret tt s' ∧
    s' = set_heap (λ _, heap s') s ∧
    heap s' !! l = Some (Cell ps' (Some (its ++ [VRef lo]))) ∧
    heap s' !! lo = Some c' ∧ props c' !! "name" = Some name ∧
    ∀ l', l' ≠ l → l' ≠ lo → heap s' !! l' = heap s !! l'.
Proof.
  destruct s as [h d g cfg t acts le cr pf ab sb tm tr]. cbn [actions heap].
  intros -> Hl Hits Hlo.
  destruct ca as [ps its']. cbn in Hits. subst its'.
  destruct (decide (lo = l)) as [->|Hne].
  - simplify_eq. eexists _, (<["name" := name]> ps), _. split.
    { unfold add. cbv beta iota. rewrite bind_ret.
      erewrite bind_step; [|by apply set_prop_ref].
      rewrite bind_gets. sfields. cbn [props items].
      erewrite push_ref; [|sfields; apply lookup_insert_eq]. reflexivity. }
    sfields. split; [reflexivity|]. rewrite lookup_insert_eq.
    split; [reflexivity|]. split; [reflexivity|]. cbn [props].
    split; [apply lookup_insert_eq|].
    intros l' Hl' _. by rewrite !lookup_insert_ne.
  - eexists _, ps, _. split.
    { unfold add. cbv beta iota. rewrite bind_ret.
      erewrite bind_step; [|by apply set_prop_ref].
      rewrite bind_gets. sfields.
      erewrite push_ref; [|sfields; by rewrite lookup_insert_ne]. reflexivity. }
    sfields. split; [reflexivity|]. rewrite lookup_insert_eq.
    split; [reflexivity|]. rewrite lookup_insert_ne, lookup_insert_eq by done.
    split; [reflexivity|]. cbn [props].
    split; [apply lookup_insert_eq|].
    intros l' Hl' Hlo'. by rewrite !lookup_insert_ne.
Qed.

Lemma action_list_Some s its :
  action_list s = Some its ↔
  ∃ l ca, actions s = VRef l ∧ heap s !! l = Some ca ∧ items ca = Some its.
Proof.
  unfold action_list. split.
  - destruct (actions s); try discriminate.
    destruct (heap s !! l) as [ca|] eqn:E; [|discriminate]. simpl.
    intros Hi. by exists l, ca.
  - intros (l & ca & -> & -> & Hi). exact Hi.
Qed.

(** C2: [add(name, opts)], with [opts] an object or left out, appends exactly
    one entry to the actions list; the entry's [name] is the given name;
    every action added before stays at its position, and the list has grown
    by one. *)
Theorem add_appends name opts its s :
  action_list s = Some its →
  (opts = VUndef ∨ ∃ lo, opts = VRef lo ∧ is_Some (heap s !! lo)) →
  ∃ s' o,
    add name opts s = Ret tt s' ∧
    action_list s' = Some (its ++ [o]) ∧
    reads o "name" s' name ∧
    (opts ≠ VUndef → o = opts) ∧
    length (its ++ [o]) = S (length its) ∧
    ∀ i v, its !! i = Some v → (its ++ [o]) !! i = Some v.
Proof.
  intros (l & ca & Hact & Hl & Hits)%action_list_Some Hopts.
  assert (Hgen : ∀ s0 lo c, actions s0 = VRef l → heap s0 !! l = Some ca →
            heap s0 !! lo = Some c →
            ∃ s', add name (VRef lo) s0 = Ret tt s' ∧
                  action_list s' = Some (its ++ [VRef lo]) ∧
                  reads (VRef lo) "name" s' name).
  { intros s0 lo c Ha0 Hl0 Hlo0.
    destruct (add_ref_runs name lo c l ca its s0 Ha0 Hl0 Hits Hlo0)
      as (s' & ps' & c' & Hrun & Hs' & Hl' & Hlo' & Hname & _).
    exists s'. split; [exact Hrun|]. split.
    - apply action_list_Some. exists l, (Cell ps' (Some (its ++ [VRef lo]))).
      split; [|by split]. rewrite Hs'. by sfields.
    - unfold reads. erewrite get_prop_ref by exact Hlo'. by rewrite Hname. }
  assert (Hlist : ∀ o : value, length (its ++ [o]) = S (length its) ∧
            ∀ i v, its !! i = Some v → (its ++ [o]) !! i = Some v).
  { intros o. split; [rewrite length_app; simpl; lia|].
    intros i v Hi. by apply lookup_app_l_Some. }
  destruct Hopts as [->|(lo & -> & [c Hlo])].
  - set (lf := fresh (dom (heap s))).
    assert (Hlf : heap s !! lf = None) by apply not_elem_of_dom, is_fresh.
    destruct (Hgen (set_heap <[lf := Cell ∅ None]> s) lf (Cell ∅ None))
      as (s' & Hrun & Hal & Hrd).
    + destruct s; exact Hact.
    + destruct s; sfields. rewrite lookup_insert_ne; [exact Hl|]. congruence.
    + destruct s; sfields. apply lookup_insert_eq.
    + exists s', (VRef lf). split; [exact Hrun|]. split; [exact Hal|].
      split; [exact Hrd|]. split; [done|]. apply Hlist.
  - destruct (Hgen s lo c Hact Hl Hlo) as (s' & Hrun & Hal & Hrd).
    exists s', (VRef lo). split; [exact Hrun|]. split; [exact Hal|].
    split; [exact Hrd|]. split; [done|]. apply Hlist.
Qed.

(** C8: [add(name, opts)] writes [name] into the caller's object and stores
    that very object in the actions list: whatever the caller writes into
    [opts] afterwards is read back from the registered action. *)
Theorem add_stores_reference name lo its s :
  action_list s = Some its → is_Some (heap s !! lo) →
  ∃ s', add name (VRef lo) s = Ret tt s' ∧
    reads (VRef lo) "name" s' name ∧
    action_list s' = Some (its ++ [VRef lo]) ∧
    ∀ k v, ∃ s'', set_prop (VRef lo) k v s' = Ret tt s'' ∧
                  registered (length its) k s'' = Some v.
Proof.
  intros (l & ca & Hact & Hl & Hits)%action_list_Some [c Hlo].
  destruct (add_ref_runs name lo c l ca its s Hact Hl Hits Hlo)
    as (s' & ps' & c' & Hrun & Hs' & Hl' & Hlo' & Hname & _).
  assert (Hact' : actions s' = VRef l) by (rewrite Hs'; by destruct s).
  exists s'. split; [exact Hrun|]. split; [|split].
  - unfold reads. erewrite get_prop_ref by exact Hlo'. by rewrite Hname.
  - apply action_list_Some. by exists l, (Cell ps' (Some (its ++ [VRef lo]))).
  - intros k v. eexists. split; [by apply set_prop_ref|].
    unfold registered, action_list. destruct s' as [h' d g cfg t acts le cr pf ab sb tm tr].
    sfields. subst acts.
    assert (Hitems : ∃ cl, <[lo := Cell (<[k := v]> (props c')) (items c')]> h' !! l = Some cl
                           ∧ items cl = Some (its ++ [VRef lo])).
    { destruct (decide (lo = l)) as [->|Hne].
      - eexists. rewrite lookup_insert_eq. split; [reflexivity|]. by simplify_eq.
      - eexists. rewrite lookup_insert_ne by done. by split. }
    destruct Hitems as (cl & -> & Hcl). simpl. rewrite Hcl. simpl.
    rewrite list_lookup_middle by done. simpl.
    rewrite lookup_insert_eq. simpl. by rewrite lookup_insert_eq.
Qed.

(** ** [get] and [getAll] *)

(** Neither looks at the actions list: both resolve the free identifier
    [commands], and throw when the global object has no such property. *)
Lemma get_unbound command s :
  globals s !! "commands" = None →
  get command s = Throw ReferenceError s ∧ getAll s = Throw ReferenceError s.
Proof.
  intros Hg. unfold get, getAll, bind, lookup_global. by rewrite Hg.
Qed.

Lemma getAll_Ret v s s' :
  getAll s = Ret v s' → globals s !! "commands" = Some v ∧ s' = s.
Proof. apply lookup_global_Ret. Qed.

(** ** [disable] *)

(** What [disable] leaves alone, however it ends. *)
Lemma disable_frame view rte s :
  let s' := final (disable view rte s) in
  heap s' = heap s ∧ actions s' = actions s ∧ lastEl s' = lastEl s ∧
  toolbar s' = toolbar s ∧ config s' = config s ∧ subs s' = subs s.
Proof.
  assert (Hp : preserves
            (λ x, heap x = heap s ∧ actions x = actions s ∧ lastEl x = lastEl s ∧
                  toolbar x = toolbar s ∧ config x = config s ∧ subs x = subs s)
            (disable view rte)).
  { unfold disable. pres; intros; assumption. }
  by apply Hp.
Qed.

(** C7: [disable(view, rte)] passes through to the external editor,
    [customRte.disable(el, rte)] when a custom editor is configured and
    [rte.disable()] otherwise, and sets the toolbar's [display] to [none];
    the store (hence the actions list), [lastEl] and the element that
    [toolbar] holds are what they were. *)
Theorem disable_passes_through view rte s s' :
  disable view rte s = Ret tt s' →
  ∃ v el target args tb e,
    view = VHost v ∧
    host_call H (length (trace s)) v "getChildrenContainer" [] = Some el ∧
    (if truthy (customRte s)
     then customRte s = VHost target ∧ args = [el; rte]
     else rte = VHost target ∧ args = []) ∧
    trace s' = trace s ++ [CallMethod v "getChildrenContainer" [];
                           CallMethod target "disable" args] ∧
    toolbar s = Some tb ∧ doc s !! tb = Some e ∧
    doc s' = <[tb := set_style "display" "none" e]> (doc s) ∧
    heap s' = heap s ∧ actions s' = actions s ∧ action_list s' = action_list s ∧
    lastEl s' = lastEl s ∧ toolbar s' = toolbar s.
Proof.
  intros Hr.
  pose proof (disable_frame view rte s) as Hf. rewrite Hr in Hf.
  cbn [final] in Hf. destruct Hf as (Hh & Ha & Hl & Ht & _).
  assert (Hal : action_list s' = action_list s).
  { unfold action_list. by rewrite Ha, Hh. }
  unfold disable in Hr. destruct s as [h d g cfg t acts le cr pf ab sb tm tr].
  minv; sfields; subst.
  all: eexists _, _, _, _, _, _; split; [reflexivity|]; split; [eassumption|].
  all: cbn [truthy];
    try match goal with Hc : truthy _ = false |- _ => rewrite Hc end.
  all: split; [by split|]; split; [by rewrite <- app_assoc|].
  all: split; [reflexivity|]; split; [eassumption|]; split; [reflexivity|].
  all: sfields; by repeat split.
Qed.

(** ** [enable] and the subscriptions of the event model *)

(** What [em.off(event, ...)] followed by [em.on(event, ...)] makes of the
    subscriptions. *)
Definition resubscribe (m : positive) (l : list sub) : list sub :=
  List.filter (λ x, negb (em_matches m (String.words event) CbUdpatePosition x)) l
  ++ ((λ ev, Sub m ev CbUdpatePosition) <$> String.words event).

(** How many times the module's position update is registered on the event
    model [m] for the event [ev]. *)
Definition registrations (m : positive) (ev : string) (s : state) : nat :=
  length (List.filter (λ x, bool_decide (x = Sub m ev CbUdpatePosition)) (subs s)).

(** Successive calls of [enable]. *)
Fixpoint enable_all (calls : list (value * value)) : M state unit :=
  match calls with
  | [] => ret tt
  | (view, rte) :: rest => enable view rte ;; enable_all rest
  end.

Lemma em_matches_new m evs cb ev :
  ev ∈ evs → em_matches m evs cb (Sub m ev cb) = true.
Proof.
  intros Hev. unfold em_matches. cbn [sub_em sub_event sub_cb].
  by rewrite !bool_decide_eq_true_2.
Qed.

Lemma filter_new_subs m evs cb evs' :
  (∀ e, e ∈ evs' → e ∈ evs) →
  List.filter (λ x, negb (em_matches m evs cb x)) ((λ ev, Sub m ev cb) <$> evs') = [].
Proof.
  induction evs' as [|e evs' IH]; intros Hsub; [reflexivity|].
  cbn [fmap list_fmap List.filter].
  rewrite em_matches_new by (apply Hsub; left). cbn [negb].
  apply IH. intros e' He'. apply Hsub. by right.
Qed.

Lemma filter_filter_same {A} (f : A → bool) (l : list A) :
  List.filter f (List.filter f l) = List.filter f l.
Proof.
  induction l as [|a l IH]; [reflexivity|]. cbn [List.filter].
  destruct (f a) eqn:E; [|exact IH]. cbn [List.filter]. by rewrite E, IH.
Qed.

Lemma resubscribe_idem m l : resubscribe m (resubscribe m l) = resubscribe m l.
Proof.
  unfold resubscribe at 1. unfold resubscribe at 1.
  rewrite List.filter_app, filter_filter_same, filter_new_subs by done.
  by rewrite app_nil_r.
Qed.

Lemma filter_off_none m ev l :
  ev ∈ String.words event →
  List.filter (λ x, bool_decide (x = Sub m ev CbUdpatePosition))
    (List.filter (λ x, negb (em_matches m (String.words event) CbUdpatePosition x)) l) = [].
Proof.
  intros Hev. induction l as [|a l IH]; [reflexivity|]. cbn [List.filter].
  destruct (em_matches m _ _ a) eqn:E; cbn [negb]; [exact IH|].
  cbn [List.filter]. rewrite bool_decide_eq_false_2; [exact IH|].
  intros ->. by rewrite em_matches_new in E.
Qed.

Lemma registrations_resubscribe m ev l :
  ev ∈ String.words event →
  length (List.filter (λ x, bool_decide (x = Sub m ev CbUdpatePosition))
            (resubscribe m l)) = 1%nat.
Proof.
  intros Hev. unfold resubscribe.
  rewrite List.filter_app, filter_off_none by done. cbn [app].
  change (String.words event) with ["change:canvasOffset"; "canvasScroll"] in *.
  cbn [fmap list_fmap List.filter].
  apply list_elem_of_In in Hev. destruct Hev as [<-|[<-|[]]].
  - rewrite bool_decide_eq_true_2 by done.
    by rewrite bool_decide_eq_false_2 by (intros [=]).
  - rewrite bool_decide_eq_false_2 by (intros [=]).
    by rewrite bool_decide_eq_true_2 by done.
Qed.

(** [enable] that returns, with an event model in the configuration, has
    resubscribed the position update; it wrote nothing into the store. *)
Lemma enable_Ret_subs view rte s r s' lc c m :
  config s = VRef lc → heap s !! lc = Some c → props c !! "em" = Some (VHost m) →
  enable view rte s = Ret r s' →
  subs s' = resubscribe m (subs s) ∧ heap s' = heap s ∧ config s' = config s ∧
  timers s' = timers s ++ [CbUdpatePosition].
Proof.
  intros Hcfg Hc Hem Hr. unfold enable in Hr.
  destruct s as [h d g cfg t acts le cr pf ab sb tm tr]. cbn in Hcfg, Hc. subst cfg.
  minv; sfields; subst.
  all: repeat match goal with
         | Hx : reads (VRef _) "em" _ _ |- _ =>
             eapply reads_ref in Hx; [|sfields; exact Hc];
             rewrite Hem in Hx; simpl in Hx
         end.
  all: simplify_eq; try discriminate.
  all: by repeat split.
Qed.

Lemma enable_all_Ret calls : ∀ s s' lc c m,
  config s = VRef lc → heap s !! lc = Some c → props c !! "em" = Some (VHost m) →
  calls ≠ [] → enable_all calls s = Ret tt s' →
  ∃ l0, subs s' = resubscribe m l0 ∧ heap s' = heap s ∧ config s' = config s.
Proof.
  induction calls as [|[view rte] rest IH]; intros s s' lc c m Hcfg Hc Hem Hne Hr;
    [done|].
  cbn [enable_all] in Hr. apply bind_Ret in Hr as (r & s1 & He & Hr).
  destruct (enable_Ret_subs _ _ _ _ _ _ _ _ Hcfg Hc Hem He) as (Hs1 & Hh1 & Hc1 & _).
  destruct rest as [|call rest].
  - apply ret_Ret in Hr as [_ ->]. by exists (subs s).
  - destruct (IH s1 s' lc c m) as (l0 & Hl0 & Hh & Hc'); try done.
    + by rewrite Hc1.
    + by rewrite Hh1.
    + exists l0. split; [exact Hl0|]. split; congruence.
Qed.

(** C9: however many times [enable] is called in succession, the position
    update is registered exactly once for each of the two events on the event
    model, and one more [enable] leaves the subscriptions as they are. *)
Theorem repeated_enable_one_handler calls s s' lc c m :
  config s = VRef lc → heap s !! lc = Some c → props c !! "em" = Some (VHost m) →
  calls ≠ [] → enable_all calls s = Ret tt s' →
  (∀ ev, ev ∈ String.words event → registrations m ev s' = 1%nat) ∧
  ∀ view rte r s'', enable view rte s' = Ret r s'' → subs s'' = subs s'.
Proof.
  intros Hcfg Hc Hem Hne Hr.
  destruct (enable_all_Ret calls s s' lc c m Hcfg Hc Hem Hne Hr) as (l0 & Hl0 & Hh & Hc').
  split.
  - intros ev Hev. unfold registrations. rewrite Hl0.
    by apply registrations_resubscribe.
  - intros view rte r s'' He.
    destruct (enable_Ret_subs view rte s' r s'' lc c m) as (Hs & _); try done.
    + congruence.
    + congruence.
    + by rewrite Hs, Hl0, resubscribe_idem.
Qed.

(** ** Events of the canvas *)

(** The configuration holds the event model [m], [toolbar] holds an element
    of the document, and the position update is registered on [m] for both
    events. *)
Definition positioning (lc m tb : positive) (s : state) : Prop :=
  config s = VRef lc ∧
  (∃ c, heap s !! lc = Some c ∧ props c !! "em" = Some (VHost m)) ∧
  toolbar s = Some tb ∧ is_Some (doc s !! tb) ∧
  ∀ ev, ev ∈ String.words event → In (Sub m ev CbUdpatePosition) (subs s).

Lemma positioning_set_prop lc m tb l c0 k x s :
  k ≠ "em" → heap s !! l = Some c0 → positioning lc m tb s →
  positioning lc m tb (set_heap <[l := Cell (<[k := x]> (props c0)) (items c0)]> s).
Proof.
  intros Hk Hl (Hcfg & (c & Hc & Hem) & Htb & Hdoc & Hsubs).
  split; [exact Hcfg|]. split; [|by repeat split]. cbn [set_heap heap].
  destruct (decide (l = lc)) as [->|Hne].
  - eexists. rewrite lookup_insert_eq. split; [reflexivity|]. cbn [props].
    rewrite lookup_insert_ne by done. by simplify_eq.
  - exists c. by rewrite lookup_insert_ne.
Qed.

Lemma positioning_alloc lc m tb c0 s :
  positioning lc m tb s →
  positioning lc m tb (set_heap <[fresh (dom (heap s)) := c0]> s).
Proof.
  intros (Hcfg & (c & Hc & Hem) & Htb & Hdoc & Hsubs).
  split; [exact Hcfg|]. split; [|by repeat split]. cbn [set_heap heap].
  exists c. rewrite lookup_insert_ne; [done|].
  intros Heq. pose proof (is_fresh (dom (heap s))) as Hf.
  rewrite Heq in Hf. apply Hf, elem_of_dom. by exists c.
Qed.

Lemma positioning_push lc m tb l ps its x s :
  heap s !! l = Some (Cell ps (Some its)) → positioning lc m tb s →
  positioning lc m tb (set_heap <[l := Cell ps (Some (its ++ [x]))]> s).
Proof.
  intros Hl (Hcfg & (c & Hc & Hem) & Htb & Hdoc & Hsubs).
  split; [exact Hcfg|]. split; [|by repeat split]. cbn [set_heap heap].
  destruct (decide (l = lc)) as [->|Hne].
  - eexists. rewrite lookup_insert_eq. split; [reflexivity|]. by simplify_eq.
  - exists c. by rewrite lookup_insert_ne.
Qed.

Lemma positioning_set_doc lc m tb e el (f : element → element) s :
  positioning lc m tb s → positioning lc m tb (set_doc <[e := f el]> s).
Proof.
  intros (Hcfg & Hc & Htb & Hdoc & Hsubs).
  split; [exact Hcfg|]. split; [exact Hc|]. split; [exact Htb|]. split; [|exact Hsubs].
  cbn [set_doc doc]. rewrite lookup_insert. case_decide; [done|exact Hdoc].
Qed.

Lemma positioning_resubscribe lc m tb m' s :
  positioning lc m tb s →
  positioning lc m tb
    (set_subs (λ l, List.filter (λ x, negb (em_matches m' (String.words event)
                                              CbUdpatePosition x)) l
                    ++ ((λ ev, Sub m' ev CbUdpatePosition) <$> String.words event)) s).
Proof.
  intros (Hcfg & Hc & Htb & Hdoc & Hsubs).
  split; [exact Hcfg|]. split; [exact Hc|]. split; [exact Htb|]. split; [exact Hdoc|].
  intros ev Hev. cbn [set_subs subs]. apply in_or_app.
  destruct (decide (m' = m)) as [->|Hne].
  - right. apply list_elem_of_In, list_elem_of_fmap. by exists ev.
  - left. apply filter_In. split; [by apply Hsubs|].
    unfold em_matches. cbn [sub_em]. by rewrite (bool_decide_eq_false_2 (m = m')).
Qed.

Ltac positioning_side :=
  first
    [ by (intros; eapply positioning_set_prop; [done|eassumption..])
    | by (intros; apply positioning_alloc)
    | by (intros; eapply positioning_push; eassumption)
    | by (intros; apply positioning_set_doc)
    | by (intros; apply positioning_resubscribe)
    | by (intros; assumption) ].

Lemma positioning_udpatePosition lc m tb : preserves (positioning lc m tb) udpatePosition.
Proof. unfold udpatePosition. pres; positioning_side. Qed.

Lemma positioning_run_callback lc m tb cb :
  preserves (positioning lc m tb) (run_callback cb).
Proof.
  destruct cb; simpl; [apply positioning_udpatePosition|].
  apply preserves_modify. intros s Hs. exact Hs.
Qed.

Lemma positioning_run_op lc m tb o :
  is_init o = false → preserves (positioning lc m tb) (run_op o).
Proof.
  destruct o; simpl; intros Hi; try discriminate.
  - unfold postRender. pres; positioning_side.
  - unfold add. pres; positioning_side.
  - unfold get. pres; positioning_side.
  - unfold getAll. pres; positioning_side.
  - apply positioning_udpatePosition.
  - unfold enable. pres; positioning_side.
  - unfold disable. pres; positioning_side.
  - unfold getToolbarEl. pres; positioning_side.
  - pres; positioning_side.
  - unfold trigger. apply preserves_bind; [apply preserves_gets|intros l].
    apply preserves_run_callbacks, positioning_run_callback.
  - apply preserves_run_timer; [|apply positioning_run_callback].
    intros g s Hs. exact Hs.
Qed.

(** The event model [m] hands out the canvas [cv], and the canvas answers
    every geometry query. *)
Definition canvas_answers (m cv : positive) : Prop :=
  (∀ t, host_call H t m "get" [VStr "Canvas"] = Some (VHost cv)) ∧
  (∀ t tb el, is_Some (host_dim H t cv tb el)).

(** The toolbar [tb] carries the [top] and [left] computed from an answer of
    the canvas [cv] about the element [x]. *)
Definition placed (cv tb : positive) (x adjust : value) (s : state) : Prop :=
  ∃ el p t, doc s !! tb = Some el ∧ host_dim H t cv (VElem tb) x = Some p ∧
    style el !! "top" = Some (num_to_string (adjusted_top adjust p) +:+ "px") ∧
    style el !! "left" = Some (num_to_string (left p) +:+ "px").

Definition repositioning (lc m tb : positive) (x : value) (c : cell) (s : state) : Prop :=
  positioning lc m tb s ∧ lastEl s = x ∧ heap s !! lc = Some c.

Lemma udpatePosition_repositions lc m cv tb x c s :
  canvas_answers m cv → repositioning lc m tb x c s →
  ∃ s', udpatePosition s = Ret tt s' ∧ repositioning lc m tb x c s' ∧
        placed cv tb x (default VUndef (props c !! "adjustToolbar")) s' ∧
        trace s' = trace s ++ [CallMethod m "get" [VStr "Canvas"];
                               CallDim cv (VElem tb) x "rteToolbarPosUpdate"].
Proof.
  intros [Hget Hdim] (Hpos & Hx & Hc).
  pose proof Hpos as (Hcfg & (c' & Hc' & Hem) & Htb & [el Hel] & Hsubs).
  assert (c' = c) as -> by congruence.
  destruct (Hdim (S (length (trace s))) (VElem tb) (lastEl s)) as [p Hp].
  pose proof (udpatePosition_runs s lc c m cv tb el p Hcfg Hc Hem (Hget _) Htb Hel Hp) as Hrun.
  eexists. split; [exact Hrun|].
  pose proof (positioning_udpatePosition lc m tb s Hpos) as Hpos'.
  rewrite Hrun in Hpos'. cbn [final] in Hpos'.
  destruct s as [h d g cfg t acts le cr pf ab sb tm tr]. sfields. subst.
  split; [by split|]. split.
  - exists (set_style "left" (num_to_string (left p) +:+ "px")
             (set_style "top"
                (num_to_string
                   (adjusted_top (default VUndef (props c !! "adjustToolbar")) p) +:+ "px")
                el)), p, (S (length tr)).
    split; [apply lookup_insert_eq|]. split; [exact Hp|]. cbn [set_style style].
    split; [|apply lookup_insert_eq].
    rewrite lookup_insert_ne by done. apply lookup_insert_eq.
  - by rewrite <- app_assoc.
Qed.

(** The handlers of an event run one after the other; the position update
    among them places the toolbar. *)
Lemma run_callbacks_repositions lc m cv tb x c cbs : ∀ s,
  canvas_answers m cv → repositioning lc m tb x c s →
  ∃ s' calls, run_callbacks cbs s = Ret tt s' ∧ repositioning lc m tb x c s' ∧
    trace s' = trace s ++ calls ∧
    (In CbUdpatePosition cbs →
       In (CallDim cv (VElem tb) x "rteToolbarPosUpdate") calls ∧
       placed cv tb x (default VUndef (props c !! "adjustToolbar")) s') ∧
    (placed cv tb x (default VUndef (props c !! "adjustToolbar")) s →
       placed cv tb x (default VUndef (props c !! "adjustToolbar")) s').
Proof.
  induction cbs as [|cb rest IH]; intros s Hcv Hs.
  - exists s, []. split; [reflexivity|]. split; [exact Hs|].
    split; [by rewrite app_nil_r|]. split; [intros []|done].
  - cbn [run_callbacks]. destruct cb as [|k].
    + destruct (udpatePosition_repositions lc m cv tb x c s Hcv Hs)
        as (s1 & Hrun & Hs1 & Hplaced & Htr).
      destruct (IH s1 Hcv Hs1) as (s' & calls & Hrest & Hs' & Htr' & Hin & Hkeep).
      exists s', ([CallMethod m "get" [VStr "Canvas"];
                   CallDim cv (VElem tb) x "rteToolbarPosUpdate"] ++ calls).
      split; [cbn [run_callback]; by erewrite bind_step by exact Hrun|].
      split; [exact Hs'|].
      split; [by rewrite Htr', Htr, <- app_assoc|].
      split; [|by intros _; apply Hkeep].
      intros _. split; [right; by left|by apply Hkeep].
    + destruct (IH (log (CallForeign k) s) Hcv) as (s' & calls & Hrest & Hs' & Htr' & Hin & Hkeep).
      { exact Hs. }
      exists s', ([CallForeign k] ++ calls).
      split; [exact Hrest|]. split; [exact Hs'|].
      split; [rewrite Htr'; cbn [log trace]; by rewrite <- app_assoc|].
      split.
      * intros [Hk|Hr]; [discriminate|]. destruct (Hin Hr) as [Hc' Hp].
        split; [by right|exact Hp].
      * intros Hp. by apply Hkeep.
Qed.

(** [enable] that returns has found the toolbar in the document. *)
Lemma enable_Ret_toolbar view rte s r s' :
  enable view rte s = Ret r s' →
  ∃ tb, toolbar s' = Some tb ∧ is_Some (doc s' !! tb).
Proof.
  intros Hr. unfold enable in Hr.
  destruct s as [h d g cfg t acts le cr pf ab sb tm tr].
  minv; sfields; subst.
  all: eexists; split; [reflexivity|]; by rewrite lookup_insert_eq.
Qed.

Lemma handlers_In m ev l :
  In (Sub m ev CbUdpatePosition) l → In CbUdpatePosition (handlers m ev l).
Proof.
  intros Hin. unfold handlers. apply list_elem_of_In, list_elem_of_fmap.
  exists (Sub m ev CbUdpatePosition). split; [reflexivity|].
  apply list_elem_of_In, filter_In. split; [exact Hin|].
  cbn [sub_em sub_event]. by rewrite !bool_decide_eq_true_2.
Qed.

(** C4: once [enable] has returned with an event model in the configuration,
    and whatever calls other than [init] follow, a [change:canvasOffset] or
    [canvasScroll] event fired on the event model runs [udpatePosition]: the
    canvas is asked for the geometry of the toolbar relative to the last
    edited element, and the toolbar's [top] and [left] are rewritten from the
    answer. *)
Theorem canvas_events_reposition view rte s r s1 lc c m cv :
  config s = VRef lc → heap s !! lc = Some c → props c !! "em" = Some (VHost m) →
  canvas_answers m cv →
  enable view rte s = Ret r s1 →
  ∀ os ev,
    forallb (λ o, negb (is_init o)) os = true →
    In ev ["change:canvasOffset"; "canvasScroll"] →
    ∃ s3 tb adjust,
      trigger m ev (run_ops os s1) = Ret tt s3 ∧
      toolbar (run_ops os s1) = Some tb ∧ toolbar s3 = Some tb ∧
      reads (config s3) "adjustToolbar" s3 adjust ∧
      In (CallDim cv (VElem tb) (lastEl (run_ops os s1)) "rteToolbarPosUpdate")
         (drop (length (trace (run_ops os s1))) (trace s3)) ∧
      placed cv tb (lastEl (run_ops os s1)) adjust s3.
Proof.
  intros Hcfg Hc Hem Hcv Hr os ev Hos Hev.
  destruct (enable_Ret_subs _ _ _ _ _ _ _ _ Hcfg Hc Hem Hr) as (Hs1 & Hh1 & Hc1 & _).
  destruct (enable_Ret_toolbar _ _ _ _ _ Hr) as (tb & Htb & Hdoc).
  assert (Hpos1 : positioning lc m tb s1).
  { split; [congruence|]. split; [exists c; by rewrite Hh1|].
    split; [exact Htb|]. split; [exact Hdoc|].
    intros e He. rewrite Hs1. unfold resubscribe. apply in_or_app. right.
    apply list_elem_of_In, list_elem_of_fmap. by exists e. }
  set (s2 := run_ops os s1).
  assert (Hpos2 : positioning lc m tb s2).
  { apply preserves_run_ops; [|exact Hpos1].
    intros o Ho. apply positioning_run_op.
    rewrite forallb_forall in Hos. apply list_elem_of_In, Hos in Ho.
    by destruct (is_init o). }
  pose proof Hpos2 as (Hcfg2 & (c2 & Hc2 & Hem2) & Htb2 & Hdoc2 & Hsubs2).
  destruct (run_callbacks_repositions lc m cv tb (lastEl s2) c2
              (handlers m ev (subs s2)) s2 Hcv)
    as (s3 & calls & Hrun & (Hpos3 & Hx3 & Hc3) & Htr & Hin & _);
    [exact (conj Hpos2 (conj eq_refl Hc2))|].
  destruct Hin as [Hcall Hplaced].
  { apply handlers_In, Hsubs2. by apply list_elem_of_In. }
  exists s3, tb, (default VUndef (props c2 !! "adjustToolbar")).
  split; [exact Hrun|]. split; [exact Htb2|].
  destruct Hpos3 as (Hcfg3 & _ & Htb3 & _).
  split; [exact Htb3|]. split.
  - rewrite Hcfg3. unfold reads. by apply get_prop_ref.
  - split; [|exact Hplaced].
    rewrite Htr, drop_app_length. exact Hcall.
Qed.

(** * Further properties of the methods *)

(** ** Calls that throw *)

Lemma bind_throw {A B} (m : M state A) (k : A → M state B) s e s1 :
  m s = Throw e s1 → bind m k s = Throw e s1.
Proof. unfold bind. by intros ->. Qed.

Lemma bind_Throw {A B} (m : M state A) (k : A → M state B) s e s' :
  bind m k s = Throw e s' →
  m s = Throw e s' ∨ ∃ a s1, m s = Ret a s1 ∧ k a s1 = Throw e s'.
Proof.
  unfold bind. destruct (m s) as [a s1|e1 s1]; intros Hk.
  - right. by exists a, s1.
  - left. by simplify_eq.
Qed.

Lemma get_prop_Throw v k e s s' : get_prop v k s = Throw e s' → s' = s.
Proof.
  destruct v; simpl; unfold ret, throw; intros Hr; try discriminate; try (by simplify_eq).
  destruct (heap s !! l); by simplify_eq.
Qed.

Lemma call_method_Throw v m args e s s' :
  call_method v m args s = Throw e s' →
  s' = s ∨ ∃ h, v = VHost h ∧ s' = log (CallMethod h m args) s.
Proof.
  destruct v; simpl; unfold throw; intros Hr; try (left; by simplify_eq).
  destruct (host_call H _ h m args); [discriminate|].
  right. exists h. by simplify_eq.
Qed.

Lemma getTargetToElementDim_Throw c tb el ev e s s' :
  getTargetToElementDim c tb el ev s = Throw e s' →
  s' = s ∨ ∃ h, c = VHost h ∧ s' = log (CallDim h tb el ev) s.
Proof.
  destruct c; simpl; unfold throw; intros Hr; try (left; by simplify_eq).
  destruct (host_dim H _ h tb el); [discriminate|].
  right. exists h. by simplify_eq.
Qed.

Lemma with_element_Throw t f e s s' :
  with_element t f s = Throw e s' → s' = s ∧ (t = None ∨ ∃ x, t = Some x ∧ doc s !! x = None).
Proof.
  destruct t as [x|]; simpl; unfold throw; intros Hr.
  - destruct (doc s !! x) eqn:E; [discriminate|].
    split; [by simplify_eq|]. right. by exists x.
  - split; [by simplify_eq|]. by left.
Qed.

Lemma push_Ret a x u s s' :
  push a x s = Ret u s' →
  (∃ l ps its, a = VRef l ∧ heap s !! l = Some (Cell ps (Some its)) ∧
               s' = set_heap <[l := Cell ps (Some (its ++ [x]))]> s) ∨
  (∃ h r, a = VHost h ∧ host_call H (length (trace s)) h "push" [x] = Some r ∧
          s' = log (CallMethod h "push" [x]) s).
Proof.
  destruct a; try (simpl; unfold throw; discriminate).
  - simpl. destruct (heap s !! l) as [[ps [its|]]|] eqn:E; intros Hr; try discriminate.
    left. exists l, ps, its. by simplify_eq.
  - unfold push. intros Hr. apply bind_Ret in Hr as (r & s1 & Hc & Hr).
    apply call_method_Ret in Hc as (h' & Hh & Hcall & ->). apply ret_Ret in Hr as [_ ->].
    right. exists h', r. by simplify_eq.
Qed.

Lemma reads_functional v k x y s1 s2 :
  heap s1 = heap s2 → reads v k s1 x → reads v k s2 y → x = y.
Proof.
  intros Hh Hx%(reads_same_heap _ _ _ _ s2 Hh) Hy. unfold reads in *. congruence.
Qed.

Lemma registered_lookup i k l ca its lo c s :
  actions s = VRef l → heap s !! l = Some ca → items ca = Some its →
  its !! i = Some (VRef lo) → heap s !! lo = Some c →
  registered i k s = Some (default VUndef (props c !! k)).
Proof.
  intros Ha Hl Hi Hlo Hc. unfold registered, action_list.
  rewrite Ha, Hl. simpl. rewrite Hi. simpl. rewrite Hlo. simpl. by rewrite Hc.
Qed.

(** ** [postRender] *)

(** X1: [postRender(ev)] that returns has asked the editor model for the
    canvas and the canvas for its tools element, has set the toolbar's
    [pointerEvents] to [all] and has appended the toolbar to the tools
    element; it wrote nothing into the store and left [toolbar], [lastEl],
    the actions and the subscriptions alone. *)
Theorem postRender_appends_toolbar ev s s' :
  postRender ev s = Ret tt s' →
  ∃ model canvas tools tb e r,
    reads ev "model" s (VHost model) ∧
    host_call H (length (trace s)) model "get" [VStr "Canvas"] = Some (VHost canvas) ∧
    host_call H (S (length (trace s))) canvas "getToolsEl" [] = Some (VHost tools) ∧
    host_call H (S (S (length (trace s)))) tools "appendChild" [VElem tb] = Some r ∧
    toolbar s = Some tb ∧ doc s !! tb = Some e ∧
    trace s' = trace s ++ [CallMethod model "get" [VStr "Canvas"];
                           CallMethod canvas "getToolsEl" [];
                           CallMethod tools "appendChild" [VElem tb]] ∧
    doc s' = <[tb := set_parent (VHost tools) (set_style "pointerEvents" "all" e)]> (doc s) ∧
    heap s' = heap s ∧ toolbar s' = toolbar s ∧ lastEl s' = lastEl s ∧
    actions s' = actions s ∧ subs s' = subs s.
Proof.
  intros Hr. unfold postRender in Hr.
  destruct s as [h d g cfg t acts le cr pf ab sb tm tr].
  minv; sfields; subst. simplify_eq.
  repeat match goal with
         | Hx : <[?l := _]> _ !! ?l = Some _ |- _ =>
             rewrite lookup_insert_eq in Hx; simplify_eq
         end.
  rewrite !length_app in *. cbn [length] in *.
  rewrite !Nat.add_1_r in *.
  eexists _, _, _, _, _, _.
  split; [eassumption|]. split; [eassumption|]. split; [eassumption|].
  split; [cbn [opt_elem] in *; eassumption|].
  split; [reflexivity|]. split; [eassumption|].
  split; [cbn [opt_elem]; by rewrite <- !app_assoc|].
  split; [by rewrite insert_insert_eq|]. by repeat split.
Qed.

(** X2: called before [init], when no toolbar exists yet, [postRender] throws
    a TypeError as soon as it has obtained the canvas: the tools element is
    never asked for and nothing is appended. *)
Theorem postRender_before_init_throws ev model canvas s :
  toolbar s = None →
  reads ev "model" s (VHost model) →
  host_call H (length (trace s)) model "get" [VStr "Canvas"] = Some canvas →
  postRender ev s = Throw TypeError (log (CallMethod model "get" [VStr "Canvas"]) s).
Proof.
  intros Ht Hm Hc. unfold postRender.
  erewrite bind_step by exact Hm.
  erewrite bind_step by (by apply call_method_host).
  rewrite bind_gets. apply bind_throw.
  destruct s; cbn in Ht; subst. reflexivity.
Qed.

(** ** [add], its failures and its aliasing *)

(** X3: called before [init], when there is no actions list yet, [add] throws
    a TypeError, but only after it has written [name] into the caller's
    options object; nothing else changes: the other properties of the
    object, the other objects of the store, the document, the configuration,
    [lastEl], the toolbar, the subscriptions, the timers and the log are as
    before. *)
Theorem add_before_init_renames_opts name lo c s :
  actions s = VUndef → heap s !! lo = Some c →
  ∃ s', add name (VRef lo) s = Throw TypeError s' ∧
        s' = set_heap <[lo := Cell (<["name" := name]> (props c)) (items c)]> s ∧
        reads (VRef lo) "name" s' name ∧
        (∀ k, k ≠ "name" → reads (VRef lo) k s' (default VUndef (props c !! k))) ∧
        (∀ l', l' ≠ lo → heap s' !! l' = heap s !! l') ∧
        actions s' = VUndef ∧ doc s' = doc s ∧ trace s' = trace s ∧
        config s' = config s ∧ lastEl s' = lastEl s ∧ toolbar s' = toolbar s ∧
        subs s' = subs s ∧ timers s' = timers s ∧ globals s' = globals s ∧
        customRte s' = customRte s ∧ pfx s' = pfx s ∧ actionbar s' = actionbar s.
Proof.
  intros Ha Hlo. destruct s as [h d g cfg t acts le cr pf ab sb tm tr].
  cbn in Ha, Hlo. subst acts.
  eexists. split.
  - unfold add. cbv beta iota. rewrite bind_ret.
    erewrite bind_step by (by apply set_prop_ref).
    rewrite bind_gets. reflexivity.
  - split; [reflexivity|]. sfields.
    split; [|split; [|split; [|by repeat split]]].
    + unfold reads. erewrite get_prop_ref by (sfields; apply lookup_insert_eq).
      cbn [props]. by rewrite lookup_insert_eq.
    + intros k Hk. unfold reads.
      erewrite get_prop_ref by (sfields; apply lookup_insert_eq).
      cbn [props]. by rewrite lookup_insert_ne.
    + intros l' Hl'. by rewrite lookup_insert_ne.
Qed.

(** X4: adding the same options object twice, under two names, registers it
    twice, and both entries then carry the second name: the first
    registration has been renamed. *)
Theorem add_same_object_twice n1 n2 lo its s :
  action_list s = Some its → is_Some (heap s !! lo) →
  ∃ s1 s2,
    add n1 (VRef lo) s = Ret tt s1 ∧ add n2 (VRef lo) s1 = Ret tt s2 ∧
    action_list s2 = Some (its ++ [VRef lo; VRef lo]) ∧
    registered (length its) "name" s2 = Some n2 ∧
    registered (S (length its)) "name" s2 = Some n2.
Proof.
  intros (l & ca & Hact & Hl & Hits)%action_list_Some [c Hlo].
  destruct (add_ref_runs n1 lo c l ca its s Hact Hl Hits Hlo)
    as (s1 & ps1 & c1 & Hrun1 & Hs1 & Hl1 & Hlo1 & _ & _).
  assert (Hact1 : actions s1 = VRef l) by (rewrite Hs1; by destruct s).
  destruct (add_ref_runs n2 lo c1 l _ (its ++ [VRef lo]) s1 Hact1 Hl1 eq_refl Hlo1)
    as (s2 & ps2 & c2 & Hrun2 & Hs2 & Hl2 & Hlo2 & Hname2 & _).
  assert (Hact2 : actions s2 = VRef l) by (rewrite Hs2; by destruct s1).
  exists s1, s2. split; [exact Hrun1|]. split; [exact Hrun2|].
  rewrite <- app_assoc in Hl2. cbn [app] in Hl2.
  split; [apply action_list_Some; by exists l, (Cell ps2 (Some (its ++ [VRef lo; VRef lo])))|].
  split.
  - erewrite registered_lookup; [by rewrite Hname2|exact Hact2|exact Hl2|reflexivity| |exact Hlo2].
    by apply list_lookup_middle.
  - erewrite registered_lookup; [by rewrite Hname2|exact Hact2|exact Hl2|reflexivity| |exact Hlo2].
    rewrite lookup_app_r by lia.
    by replace (S (length its) - length its)%nat with 1%nat by lia.
Qed.

(** X5: [add] that returns has changed two objects at most, the options
    object and the actions array: every other object of the store, the
    document, the configuration, [lastEl], the toolbar and the subscriptions
    are as before, and no collaborator was called. *)
Theorem add_leaves_the_rest name lo l s s' :
  actions s = VRef l →
  add name (VRef lo) s = Ret tt s' →
  (∀ l', l' ≠ l → l' ≠ lo → heap s' !! l' = heap s !! l') ∧
  doc s' = doc s ∧ config s' = config s ∧ lastEl s' = lastEl s ∧
  toolbar s' = toolbar s ∧ actions s' = actions s ∧ subs s' = subs s ∧
  trace s' = trace s.
Proof.
  intros Ha Hr. unfold add in Hr. cbv beta iota in Hr.
  destruct s as [h d g cfg t acts le cr pf ab sb tm tr]. cbn in Ha. subst acts.
  apply bind_Ret in Hr as (o & s0 & Ho & Hr). apply ret_Ret in Ho as [-> ->].
  apply bind_Ret in Hr as (u & s1 & Hset & Hr).
  apply set_prop_Ret in Hset as (l0 & c & Hl0 & Hc & ->).
  rewrite bind_gets in Hr. sfields.
  apply push_Ret in Hr as [(l1 & ps & its & Hl1 & Hps & ->)|(h1 & r & Hh & _)];
    [|discriminate].
  simplify_eq. sfields. split; [|by repeat split].
  intros l' Hl' Hlo'. by rewrite !lookup_insert_ne.
Qed.

(** ** [init], its toolbar element and its actions list *)

(** The element and the actions list once [init] has returned. *)
Lemma init_Ret_element l c s s' :
  heap s !! l = Some c →
  init (VRef l) s = Ret tt s' →
  let merged := props c ∪ list_to_map defaults in
  let ppfx := default VUndef (merged !! "pStylePrefix") in
  let a := default VUndef (merged !! "actions") in
  ∃ e p,
    doc s !! e = None ∧ toolbar s' = Some e ∧ to_string ppfx = Some p ∧
    doc s' = <[e := Element "div" (p +:+ "rte-toolbar") ∅ None ["mousedown"]]> (doc s) ∧
    if truthy a then actions s' = a
    else ∃ la, heap s !! la = None ∧ actions s' = VRef la ∧
               heap s' !! la = Some (Cell ∅ (Some [])).
Proof.
  cbv zeta. intros Hl Hr. unfold init in Hr.
  apply bind_Ret in Hr as (cfg & s1 & Hm & Hr). apply ret_Ret in Hm as [-> ->].
  apply bind_Ret in Hr as (u & s1 & Hm & Hr). apply modify_Ret in Hm. subst s1.
  apply bind_Ret in Hr as (u' & s1 & Hm & Hr). destruct u'.
  apply (merge_defaults_Ret l defaults c) in Hm; [|exact Hl]. simpl in Hm.
  subst s1. destruct s as [h d g cfg tb acts le cr pf ab sb tm tr].
  minv; sfields; simplify_eq.
  all: repeat match goal with
         | Hx : <[?l := _]> _ !! ?l = Some _ |- _ =>
             rewrite lookup_insert_eq in Hx; simplify_eq
         end.
  all: repeat match goal with
         | Hx : reads (VRef ?l) _ _ _ |- _ =>
             eapply reads_ref in Hx; [|sfields; apply lookup_insert_eq]
         end.
  all: cbn [props items] in *; subst.
  all: rewrite ?lookup_insert_ne in * by done.
  all: eexists _, _; split; [eassumption|]; split; [reflexivity|];
    split; [eassumption|]; split; [by rewrite !insert_insert_eq|].
  all: match goal with
       | Ht : truthy ?x = _ |- context [if truthy ?x then _ else _] => rewrite Ht
       end.
  all: try reflexivity.
  all: match goal with
       | Hx : <[?l := _]> _ !! ?la = None |- _ =>
           exists la; apply lookup_insert_None in Hx as [Hx ?]
       end.
  all: repeat match goal with
         | Hx : <[?l := _]> _ !! ?la = None |- _ =>
             apply lookup_insert_None in Hx as [Hx ?]
         end.
  all: split; [assumption|]; split; [reflexivity|]; apply lookup_insert_eq.
Qed.

(** X6: the class of the toolbar element is the string form of the resulting
    [pStylePrefix] followed by [rte-toolbar]; with no [pStylePrefix] in the
    options nor in the defaults the class is [undefinedrte-toolbar]. *)
Theorem init_names_toolbar_class l c s s' :
  heap s !! l = Some c →
  init (VRef l) s = Ret tt s' →
  let ppfx := default VUndef ((props c ∪ list_to_map defaults) !! "pStylePrefix") in
  ∃ e el p,
    toolbar s' = Some e ∧ doc s' !! e = Some el ∧
    to_string ppfx = Some p ∧ className el = p +:+ "rte-toolbar" ∧
    ((props c ∪ list_to_map defaults) !! "pStylePrefix" = None →
     className el = "undefinedrte-toolbar").
Proof.
  intros Hl Hr ppfx.
  destruct (init_Ret_element l c s s' Hl Hr) as (e & p & _ & Htb & Hp & Hdoc & _).
  exists e, (Element "div" (p +:+ "rte-toolbar") ∅ None ["mousedown"]), p.
  split; [exact Htb|]. split; [rewrite Hdoc; apply lookup_insert_eq|].
  split; [exact Hp|]. split; [reflexivity|].
  intros Hnone. cbn [className]. rewrite Hnone in Hp. cbn in Hp. by simplify_eq.
Qed.

(** X7: [init] does not copy the actions: when the resulting configuration
    has a truthy [actions] (from the options or, by reference, from the
    defaults), the module's actions list is that very value; otherwise it is
    a new empty array. *)
Theorem init_actions_list l c s s' :
  heap s !! l = Some c →
  init (VRef l) s = Ret tt s' →
  let a := default VUndef ((props c ∪ list_to_map defaults) !! "actions") in
  (truthy a = true → actions s' = a) ∧
  (truthy a = false →
     ∃ la, heap s !! la = None ∧ actions s' = VRef la ∧ action_list s' = Some []).
Proof.
  intros Hl Hr a.
  destruct (init_Ret_element l c s s' Hl Hr) as (e & p & _ & _ & _ & _ & Hact).
  fold a in Hact. split; intros Ha; rewrite Ha in Hact; [exact Hact|].
  destruct Hact as (la & Hnew & Hla & Hcell). exists la.
  split; [exact Hnew|]. split; [exact Hla|].
  unfold action_list. by rewrite Hla, Hcell.
Qed.

(** X8: [init(null)] throws a TypeError, whatever the defaults, and leaves the
    module with [config = null]: from then on every [enable] throws. *)
Theorem init_null_throws s :
  init VNull s = Throw TypeError (set_config VNull s) ∧
  ∀ view rte, ∃ e s', enable view rte (set_config VNull s) = Throw e s'.
Proof.
  split.
  - unfold init. rewrite bind_ret, bind_step with (a := tt) (s1 := set_config VNull s)
      by reflexivity.
    destruct defaults as [|[name v] ds]; reflexivity.
  - intros view rte.
    destruct (enable view rte (set_config VNull s)) as [r s'|e s'] eqn:Hr; [|by eauto].
    exfalso. unfold enable in Hr.
    apply bind_Ret in Hr as (v & s1 & Hv & Hr). apply get_prop_Ret in Hv as [-> _].
    apply bind_Ret in Hr as (u & s1 & Hm & Hr). apply modify_Ret in Hm. subst s1.
    rewrite bind_gets in Hr. destruct s. discriminate Hr.
Qed.

(** X9: [init()] without options builds the configuration from the defaults
    alone: a new object whose properties, [stylePrefix] apart, are exactly
    the defaults, and [stylePrefix] too when the default [pStylePrefix] is
    falsy. *)
Theorem init_without_options s s' :
  init VUndef s = Ret tt s' →
  ∃ l c', heap s !! l = None ∧ config s' = VRef l ∧ heap s' !! l = Some c' ∧
    (∀ k, k ≠ "stylePrefix" →
          props c' !! k = (list_to_map defaults : gmap string value) !! k) ∧
    (truthy (default VUndef ((list_to_map defaults : gmap string value) !! "pStylePrefix"))
       = false →
     props c' = list_to_map defaults).
Proof.
  intros Hr. set (lf := fresh (dom (heap s))).
  assert (Hlf : heap s !! lf = None) by apply not_elem_of_dom, is_fresh.
  change (init (VRef lf) (set_heap <[lf := Cell ∅ None]> s) = Ret tt s') in Hr.
  destruct (init_Ret lf (Cell ∅ None) _ s' (lookup_insert_eq _ _ _) Hr)
    as (ps' & Hcfg & Hh & _ & Hps).
  cbn [props items] in *. rewrite (left_id_L ∅ (∪)) in Hps.
  exists lf, (Cell ps' None). split; [exact Hlf|]. split; [exact Hcfg|].
  split; [exact Hh|]. cbn [props]. split.
  - intros k Hk. destruct (truthy _); [|by subst ps'].
    destruct Hps as (r & _ & ->). by rewrite lookup_insert_ne.
  - intros Hf. by rewrite Hf in Hps.
Qed.

(** X10: [init] calls no collaborator and touches neither [lastEl] nor the
    subscriptions, the pending timers, [customRte] or [actionbar], whether it
    returns or throws. *)
Theorem init_calls_nobody opts s :
  trace (final (init opts s)) = trace s ∧
  lastEl (final (init opts s)) = lastEl s ∧
  subs (final (init opts s)) = subs s ∧
  timers (final (init opts s)) = timers s ∧
  customRte (final (init opts s)) = customRte s ∧
  actionbar (final (init opts s)) = actionbar s.
Proof.
  assert (Hp : preserves
            (λ x, trace x = trace s ∧ lastEl x = lastEl s ∧ subs x = subs s ∧
                  timers x = timers s ∧ customRte x = customRte s ∧
                  actionbar x = actionbar s)
            (init opts)).
  { unfold init. pres; try apply preserves_merge_defaults;
      unfold heap_stable; intros; assumption. }
  by apply Hp.
Qed.

(** The document once [init] has returned: one element more. *)
Lemma init_Ret_doc opts s s' :
  init opts s = Ret tt s' →
  ∃ e x, doc s !! e = None ∧ toolbar s' = Some e ∧ doc s' = <[e := x]> (doc s).
Proof.
  intros Hr. unfold init in Hr.
  apply bind_Ret in Hr as (cfg & s1 & Hcfg & Hr).
  apply bind_Ret in Hr as (u & s2 & Hm & Hr). apply modify_Ret in Hm.
  apply bind_Ret in Hr as (u' & s3 & Hmerge & Hr).
  assert (Hdoc : doc s3 = doc s).
  { pose proof (preserves_merge_defaults (λ x, doc x = doc s) cfg defaults) as Hp.
    specialize (Hp (λ g x Hx, Hx) s2). rewrite Hmerge in Hp. apply Hp.
    subst s2. destruct opts; minv; reflexivity. }
  clear Hcfg Hm Hmerge. destruct s3 as [h d g cf tb acts le cr pf ab sb tm tr].
  cbn [doc] in Hdoc. subst d.
  minv; sfields; simplify_eq.
  all: repeat match goal with
         | Hx : <[?l := _]> _ !! ?l = Some _ |- _ =>
             rewrite lookup_insert_eq in Hx; simplify_eq
         end.
  all: eexists _, _; split; [eassumption|]; split; [reflexivity|].
  all: by rewrite !insert_insert_eq.
Qed.

(** X11: a second [init] replaces the toolbar: [toolbar] then holds a new
    element, and the element of the first [init] stays in the document as it
    was, no longer reachable through the module. *)
Theorem init_again_makes_new_toolbar opts e el s s' :
  toolbar s = Some e → doc s !! e = Some el →
  init opts s = Ret tt s' →
  ∃ e', e' ≠ e ∧ toolbar s' = Some e' ∧ getToolbarEl s' = Ret (VElem e') s' ∧
        doc s' !! e = Some el.
Proof.
  intros Ht He Hr.
  destruct (init_Ret_doc opts s s' Hr) as (e' & x & Hnew & Ht' & Hdoc).
  assert (Hne : e' ≠ e) by congruence.
  exists e'. split; [exact Hne|]. split; [exact Ht'|]. split.
  - unfold getToolbarEl, gets. by rewrite Ht'.
  - rewrite Hdoc. by rewrite lookup_insert_ne.
Qed.

(** ** [enable], its collaborators and its failures *)

(** X12: [enable(view, rte)] that returns has shown the toolbar
    ([display] emptied) and has gone through exactly one editor: with a
    custom editor configured, [customRte.enable(el, rte)], otherwise a new
    [RichTextEditor] built on [el] with the toolbar for container, the
    classes [pfx + 'actionbar'] and [pfx + 'action'] and the action bar kept
    from before.  It returns what that editor returned, and keeps that
    editor's [actionbar] when it is truthy.  The store and the actions list
    are untouched. *)
Theorem enable_passes_through view rte s r s' :
  enable view rte s = Ret r s' →
  ∃ v el tb e p ab,
    view = VHost v ∧
    host_call H (length (trace s)) v "getChildrenContainer" [] = Some el ∧
    toolbar s = Some tb ∧ doc s !! tb = Some e ∧ to_string (pfx s) = Some p ∧
    (if truthy (customRte s)
     then ∃ hc, customRte s = VHost hc ∧
                host_call H (S (length (trace s))) hc "enable" [el; rte] = Some r ∧
                trace s' = trace s ++ [CallMethod v "getChildrenContainer" [];
                                       CallMethod hc "enable" [el; rte]]
     else rte_new H (S (length (trace s))) el (VElem tb)
            (p +:+ "actionbar") (p +:+ "action") (actionbar s) = Some r ∧
          trace s' = trace s ++ [CallMethod v "getChildrenContainer" [];
                                 CallNewRte el (VElem tb) (p +:+ "actionbar")
                                   (p +:+ "action") (actionbar s)]) ∧
    doc s' = <[tb := set_style "display" "" e]> (doc s) ∧
    reads r "actionbar" s ab ∧
    actionbar s' = (if truthy ab then ab else actionbar s) ∧
    heap s' = heap s ∧ actions s' = actions s ∧ toolbar s' = toolbar s ∧
    config s' = config s.
Proof.
  intros Hr. unfold enable in Hr.
  destruct s as [h d g cfg t acts le cr pf ab0 sb tm tr].
  minv; sfields; subst; simplify_eq.
  all: rewrite ?length_app in *; cbn [length] in *; rewrite ?Nat.add_1_r in *.
  all: match goal with
       | Hx : reads _ "actionbar" _ ?ab |- _ =>
           eexists _, _, _, _, _, ab
       end.
  all: split; [reflexivity|]; split; [eassumption|]; split; [reflexivity|].
  all: split; [eassumption|]; split; [eassumption|].
  all: cbn [truthy opt_elem] in *;
    repeat match goal with
           | Hc : truthy ?x = _ |- context [truthy ?x] => rewrite Hc
           end.
  all: split; [first [ eexists; split; [reflexivity|]; split; [eassumption|];
                       by rewrite <- app_assoc
                     | split; [eassumption|]; by rewrite <- app_assoc ]|].
  all: split; [reflexivity|].
  all: split; [eapply reads_same_heap; [|eassumption]; reflexivity|].
  all: by repeat split.
Qed.

(** X13: called before [init], when no toolbar exists yet, [enable] throws a
    TypeError; by then it has recorded [view.el] as the last edited element
    and asked the view for its children container, but no editor was called,
    nothing was subscribed and no timer was set. *)
Theorem enable_before_init_throws view rte v x em el p s :
  toolbar s = None →
  view = VHost v →
  reads view "el" s x →
  reads (config s) "em" s em →
  host_call H (length (trace s)) v "getChildrenContainer" [] = Some el →
  to_string (pfx s) = Some p →
  ∃ s', enable view rte s = Throw TypeError s' ∧
        lastEl s' = x ∧
        trace s' = trace s ++ [CallMethod v "getChildrenContainer" []] ∧
        subs s' = subs s ∧ timers s' = timers s ∧ doc s' = doc s.
Proof.
  intros Ht -> Hx Hem Hel Hp.
  destruct s as [h d g cfg t acts le cr pf ab sb tm tr]. cbn in Ht, Hp, Hel. subst t.
  eexists. split.
  - unfold enable. erewrite bind_step by exact Hx.
    erewrite bind_step by reflexivity. rewrite bind_gets. sfields.
    erewrite bind_step by (eapply reads_same_heap; [|exact Hem]; reflexivity).
    rewrite bind_gets. sfields.
    erewrite bind_step by (by apply call_method_host).
    rewrite !bind_gets. sfields. rewrite Hp. cbn [prim]. rewrite bind_ret.
    reflexivity.
  - by sfields.
Qed.

(** X14: without an event model in the configuration, [enable] subscribes
    nothing and sets no timer. *)
Theorem enable_without_em view rte em s r s' :
  reads (config s) "em" s em → truthy em = false →
  enable view rte s = Ret r s' →
  subs s' = subs s ∧ timers s' = timers s.
Proof.
  intros Hem Hf Hr. unfold enable in Hr.
  destruct s as [h d g cfg t acts le cr pf ab sb tm tr].
  minv; sfields; subst.
  all: repeat match goal with
         | Hx : reads ?c "em" _ ?y, Hz : reads ?c "em" _ ?z |- _ =>
             tryif constr_eq y z then fail
             else (assert (y = z)
                     by (eapply reads_functional; [|exact Hx|exact Hz]; reflexivity);
                   subst)
         end.
  all: try (cbn [truthy] in *; congruence).
  all: by split.
Qed.

(** X15: unlike the subscription, the deferred position updates add up: the
    calls of [enable] that return leave one pending timer each. *)
Theorem enable_timers_add_up calls : ∀ s s' lc c m,
  config s = VRef lc → heap s !! lc = Some c → props c !! "em" = Some (VHost m) →
  enable_all calls s = Ret tt s' →
  timers s' = timers s ++ replicate (length calls) CbUdpatePosition.
Proof.
  induction calls as [|[view rte] rest IH]; intros s s' lc c m Hcfg Hc Hem Hr.
  - cbn [enable_all] in Hr. apply ret_Ret in Hr as [_ ->]. by rewrite app_nil_r.
  - cbn [enable_all] in Hr. apply bind_Ret in Hr as (r & s1 & He & Hr).
    destruct (enable_Ret_subs _ _ _ _ _ _ _ _ Hcfg Hc Hem He) as (_ & Hh1 & Hc1 & Ht1).
    rewrite (IH s1 s' lc c m); [|congruence|congruence|exact Hem|exact Hr].
    rewrite Ht1. cbn [length replicate]. by rewrite <- app_assoc.
Qed.

(** X16: a custom editor whose [enable] returns [undefined] or [null] makes
    [enable] throw a TypeError on [rte.actionbar]: the toolbar is already
    shown and [lastEl] recorded, but the position update is neither
    subscribed nor scheduled. *)
Theorem enable_custom_without_result_throws view rte v x em el p tb e hc r s :
  view = VHost v →
  reads view "el" s x →
  reads (config s) "em" s em →
  host_call H (length (trace s)) v "getChildrenContainer" [] = Some el →
  to_string (pfx s) = Some p →
  toolbar s = Some tb → doc s !! tb = Some e →
  customRte s = VHost hc →
  host_call H (S (length (trace s))) hc "enable" [el; rte] = Some r →
  r = VUndef ∨ r = VNull →
  ∃ s', enable view rte s = Throw TypeError s' ∧
        lastEl s' = x ∧
        doc s' = <[tb := set_style "display" "" e]> (doc s) ∧
        trace s' = trace s ++ [CallMethod v "getChildrenContainer" [];
                               CallMethod hc "enable" [el; rte]] ∧
        subs s' = subs s ∧ timers s' = timers s.
Proof.
  intros -> Hx Hem Hel Hp Ht He Hcr Hcall Hres.
  destruct s as [h d g cfg t acts le cr pf ab sb tm tr].
  cbn in Ht, Hp, Hel, He, Hcr, Hcall. subst t cr.
  eexists. split.
  - unfold enable. erewrite bind_step by exact Hx.
    erewrite bind_step by reflexivity. rewrite bind_gets. sfields.
    erewrite bind_step by (eapply reads_same_heap; [|exact Hem]; reflexivity).
    rewrite bind_gets. sfields.
    erewrite bind_step by (by apply call_method_host).
    rewrite !bind_gets. sfields. rewrite Hp. cbn [prim]. rewrite bind_ret.
    erewrite bind_step by (by apply with_element_some). cbn [truthy].
    erewrite bind_step
      by (apply call_method_host; sfields; rewrite length_app, Nat.add_1_r; exact Hcall).
    apply bind_throw. destruct Hres as [-> | ->]; reflexivity.
  - sfields. split; [reflexivity|]. split; [reflexivity|].
    split; [by rewrite <- app_assoc|]. by split.
Qed.

(** ** [udpatePosition], [disable] and the timer: what they leave alone *)

(** X17: a position update is all or nothing: when [udpatePosition] throws
    (no event model, no canvas, a canvas that fails, no toolbar) the document
    is as it was, neither [top] nor [left] was written; and however it ends
    it wrote nothing into the store and left [lastEl], [toolbar], the
    configuration and the subscriptions alone. *)
Theorem udpatePosition_all_or_nothing s :
  (∀ e s', udpatePosition s = Throw e s' → doc s' = doc s) ∧
  heap (final (udpatePosition s)) = heap s ∧
  lastEl (final (udpatePosition s)) = lastEl s ∧
  toolbar (final (udpatePosition s)) = toolbar s ∧
  config (final (udpatePosition s)) = config s ∧
  subs (final (udpatePosition s)) = subs s.
Proof.
  split.
  - intros e s' Hr. unfold udpatePosition in Hr. cbv zeta in Hr.
    destruct s as [h d g cfg t acts le cr pf ab sb tm tr].
    rewrite bind_gets in Hr. sfields.
    apply bind_Throw in Hr as [Hr|(em & s1 & Hm & Hr)];
      [by apply get_prop_Throw in Hr as ->|].
    apply get_prop_Ret in Hm as [-> _].
    apply bind_Throw in Hr as [Hr|(canvas & s1 & Hm & Hr)];
      [by apply call_method_Throw in Hr as [->|(hh & _ & ->)]|].
    apply call_method_Ret in Hm as (hm & -> & _ & ->).
    rewrite !bind_gets in Hr. sfields.
    apply bind_Throw in Hr as [Hr|(p & s1 & Hm & Hr)];
      [by apply getTargetToElementDim_Throw in Hr as [->|(hh & _ & ->)]|].
    apply getTargetToElementDim_Ret in Hm as (hc & -> & _ & ->).
    apply bind_Throw in Hr as [Hr|(adj & s1 & Hm & Hr)];
      [by apply get_prop_Throw in Hr as ->|].
    apply get_prop_Ret in Hm as [-> _].
    apply bind_Throw in Hr as [Hr|(u & s1 & Hm & Hr)];
      [by apply with_element_Throw in Hr as [-> _]|].
    apply with_element_Ret in Hm as (x & el & -> & Hel & ->).
    apply with_element_Throw in Hr as [_ [Hn|(y & Hy & Hn)]]; [discriminate|].
    sfields. simplify_eq. by rewrite lookup_insert_eq in Hn.
  - assert (Hp : preserves
              (λ x, heap x = heap s ∧ lastEl x = lastEl s ∧ toolbar x = toolbar s ∧
                    config x = config s ∧ subs x = subs s)
              udpatePosition).
    { unfold udpatePosition. pres; intros; assumption. }
    by apply Hp.
Qed.

(** X18: [disable] never unsubscribes the position update nor cancels a
    pending one: whether it returns or throws, the registrations on every
    event model and the pending timers are what they were. *)
Theorem disable_keeps_subscription view rte s m ev :
  registrations m ev (final (disable view rte s)) = registrations m ev s ∧
  timers (final (disable view rte s)) = timers s.
Proof.
  assert (Hp : preserves (λ x, subs x = subs s ∧ timers x = timers s) (disable view rte)).
  { unfold disable. pres; intros; assumption. }
  destruct (Hp s) as [Hs Ht]; [by split|].
  split; [|exact Ht]. unfold registrations. by rewrite Hs.
Qed.

(** X19: the position update that [enable] defers with [setTimeout] places
    the toolbar, when it runs, relative to the element just recorded: after
    an [enable] that returned with no timer pending before, running the timer
    returns, leaves no timer pending and has written [top] and [left] from
    the canvas's answer about [view.el]. *)
Theorem timer_after_enable_places_toolbar view rte s r s1 lc c m cv :
  config s = VRef lc → heap s !! lc = Some c → props c !! "em" = Some (VHost m) →
  canvas_answers m cv →
  timers s = [] →
  enable view rte s = Ret r s1 →
  ∃ s2 tb,
    run_timer s1 = Ret tt s2 ∧ timers s2 = [] ∧ toolbar s2 = Some tb ∧
    reads view "el" s (lastEl s1) ∧
    placed cv tb (lastEl s1) (default VUndef (props c !! "adjustToolbar")) s2.
Proof.
  intros Hcfg Hc Hem Hcv Htm Hr.
  destruct (enable_Ret_subs _ _ _ _ _ _ _ _ Hcfg Hc Hem Hr) as (Hs1 & Hh1 & Hc1 & Ht1).
  destruct (enable_Ret_toolbar _ _ _ _ _ Hr) as (tb & Htb & Hdoc).
  rewrite Htm in Ht1. cbn [app] in Ht1.
  assert (Hrep : repositioning lc m tb (lastEl s1) c (set_timers (λ _, []) s1)).
  { split; [|split].
    - split; [cbn; congruence|]. split; [exists c; cbn; by rewrite Hh1|].
      split; [exact Htb|]. split; [exact Hdoc|].
      intros e He. cbn [set_timers subs]. rewrite Hs1. unfold resubscribe.
      apply in_or_app. right. apply list_elem_of_In, list_elem_of_fmap. by exists e.
    - reflexivity.
    - cbn. by rewrite Hh1. }
  destruct (udpatePosition_repositions lc m cv tb (lastEl s1) c _ Hcv Hrep)
    as (s2 & Hrun & (Hpos2 & _ & _) & Hplaced & Htr).
  exists s2, tb. split.
  - unfold run_timer. rewrite Ht1. exact Hrun.
  - split.
    + assert (Hp : preserves (λ x, timers x = []) udpatePosition).
      { unfold udpatePosition. pres; intros; assumption. }
      specialize (Hp (set_timers (λ _, []) s1) eq_refl). by rewrite Hrun in Hp.
    + destruct Hpos2 as (_ & _ & Htb2 & _).
      split; [exact Htb2|]. split; [by eapply enable_lastEl|exact Hplaced].
Qed.

(** ** [get] when the global exists *)

(** X20: when some global [commands] exists, [get(command)] that returns has
    called [commands.where] with a new object holding the one property
    [command], and has left the actions list, the configuration and the
    toolbar as they were. *)
Theorem get_asks_global_collection command s r s' :
  get command s = Ret r s' →
  ∃ cm q res,
    globals s !! "commands" = Some (VHost cm) ∧
    heap s !! q = None ∧
    heap s' = <[q := Cell {["command" := command]} None]> (heap s) ∧
    host_call H (length (trace s)) cm "where" [VRef q] = Some res ∧
    trace s' = trace s ++ [CallMethod cm "where" [VRef q]] ∧
    actions s' = actions s ∧ action_list s' = action_list s ∧
    config s' = config s ∧ toolbar s' = toolbar s.
Proof.
  intros Hr. unfold get in Hr.
  apply bind_Ret in Hr as (cmv & s1 & Hg & Hr).
  apply lookup_global_Ret in Hg as [Hg ->].
  apply bind_Ret in Hr as (qv & s1 & Ha & Hr).
  apply alloc_Ret in Ha as (q & Hq & -> & ->).
  apply bind_Ret in Hr as (res & s2 & Hc & Hr).
  apply call_method_Ret in Hc as (cm & -> & Hcall & ->).
  assert (Hs' : s' = log (CallMethod cm "where" [VRef q])
                       (set_heap <[q := Cell {["command" := command]} None]> s)).
  { pose proof (preserves_first_item (λ x, x = log (CallMethod cm "where" [VRef q])
                  (set_heap <[q := Cell {["command" := command]} None]> s)) res) as Hp.
    specialize (Hp _ eq_refl). by rewrite Hr in Hp. }
  subst s'. destruct s as [h d g cfg t acts le cr pf ab sb tm tr]. sfields.
  exists cm, q, res. split; [exact Hg|]. split; [exact Hq|].
  split; [reflexivity|]. split; [exact Hcall|]. split; [reflexivity|].
  split; [reflexivity|]. split; [|by split].
  unfold action_list. sfields. destruct acts; try reflexivity.
  destruct (decide (l = q)) as [->|Hne].
  - by rewrite lookup_insert_eq, Hq.
  - by rewrite lookup_insert_ne.
Qed.

End RichTextEditor.

Arguments value : clear implicits.
Arguments cell : clear implicits.
Arguments element : clear implicits.
Arguments pos : clear implicits.
Arguments call : clear implicits.
Arguments state : clear implicits.
Arguments hosts : clear implicits.

(** * The module at work

    A run of the module with whole-pixel geometry: collaborators that answer
    every call, and a sample of the defaults of [config/config]. *)

Definition sample_hosts : hosts znum :=
  Hosts
    (λ h k, if String.eqb k "el" then VHost 11 else VUndef)
    (λ t h m args, if String.eqb m "get" then Some (VHost 4) else Some (VHost 12))
    (λ t c tb el, Some (Pos (Int 5) (Int 40) (Int 10) (Int 30) (Int 20)))
    (λ t el c a b ab, Some (VHost 13)).

Definition sample_defaults : list (string * value znum) :=
  [("stylePrefix", VStr "rte-"); ("adjustToolbar", VNum (Int 1))].

(** Options that supply both prefixes and an event model. *)
Definition sample_opts : cell znum :=
  Cell (<["pStylePrefix" := VStr "gjs-"]>
          (<["stylePrefix" := VStr "rte-"]> (<["em" := VHost 3]> ∅))) None.

(** The options of an action, as a caller of [add] would build them. *)
Definition sample_action : cell znum :=
  Cell (<["icon" := VStr "<b>B</b>"]> (<["title" := VStr "Bold"]> ∅)) None.

(** A module just created, with the options object at 5 and the action's
    options at 6 in the store. *)
Definition s_created : state znum :=
  fresh_module ∅ (<[5%positive := sample_opts]> (<[6%positive := sample_action]> ∅)).

Definition s_initialised : state znum :=
  final (init sample_hosts sample_defaults (VRef 5) s_created).

Definition s_enabled : state znum :=
  final (enable sample_hosts (VHost 2) VUndef s_initialised).

Definition s_added : state znum :=
  final (add sample_hosts (VStr "bold") (VRef 6) s_initialised).

Definition s_disabled : state znum :=
  final (disable sample_hosts (VHost 2) (VHost 13) s_enabled).

Definition s_enabled_twice : state znum :=
  final (enable_all sample_hosts [(VHost 2, VUndef); (VHost 2, VHost 13)] s_initialised).

(** The configuration object once [init] has run. *)
Definition sample_config : cell znum :=
  default (Cell ∅ None) (heap s_initialised !! 5%positive).

Lemma init_sample : init sample_hosts sample_defaults (VRef 5) s_created = Ret tt s_initialised.
Proof. vm_compute. reflexivity. Qed.

Lemma enable_sample :
  enable sample_hosts (VHost 2) VUndef s_initialised = Ret (VHost 13) s_enabled.
Proof. vm_compute. reflexivity. Qed.

(** C1: [get] and [getAll] read an identifier, [commands], that no scope of
    the module binds: after [init] and [add('bold')], with the action in the
    actions list, [get('bold')] and [getAll()] throw a ReferenceError instead
    of returning the action and the list. *)
Theorem get_after_add_throws :
  add sample_hosts (VStr "bold") (VRef 6) s_initialised = Ret tt s_added ∧
  action_list s_added = Some [VRef 6] ∧
  get_prop sample_hosts (VRef 6) "name" s_added = Ret (VStr "bold") s_added ∧
  get sample_hosts (VStr "bold") s_added = Throw ReferenceError s_added ∧
  getAll s_added = Throw ReferenceError s_added.
Proof.
  repeat split; vm_compute; reflexivity.
Qed.

(** C6, as stated, fails: a [stylePrefix] supplied in the options is
    overwritten when [pStylePrefix] is truthy. *)
Lemma init_overwrites_supplied_stylePrefix :
  init sample_hosts sample_defaults (VRef 5) s_created = Ret tt s_initialised ∧
  ¬ init_keeps_supplied 5 s_created s_initialised.
Proof.
  split; [exact init_sample|]. intros Hk.
  destruct (Hk sample_opts "stylePrefix" (VStr "rte-")) as (c' & Hc' & Hp).
  - vm_compute. reflexivity.
  - vm_compute. reflexivity.
  - vm_compute in Hc'. injection Hc' as <-. vm_compute in Hp. discriminate Hp.
Qed.

(** ** The theorems on that run *)

Lemma sample_config_lookup : heap s_initialised !! 5%positive = Some sample_config.
Proof. vm_compute. reflexivity. Qed.

Lemma sample_canvas_answers : canvas_answers sample_hosts 3 4.
Proof. split; [intros t; reflexivity | intros t tb el; eexists; reflexivity]. Qed.

Lemma add_appends_witness :
  ∃ s' o, add sample_hosts (VStr "bold") (VRef 6) s_initialised = Ret tt s' ∧
          action_list s' = Some [o] ∧ o = VRef 6.
Proof.
  destruct (add_appends sample_hosts (VStr "bold") (VRef 6) [] s_initialised)
    as (s' & o & Hadd & Hlist & _ & Ho & _).
  - vm_compute. reflexivity.
  - right. exists 6%positive. split; [reflexivity|]. vm_compute. eexists. reflexivity.
  - exists s', o. split; [exact Hadd|]. split; [exact Hlist|]. by apply Ho.
Defined.

Lemma enable_records_lastEl_witness :
  lastEl s_enabled = VHost 11 ∧
  lastEl (run_ops sample_hosts sample_defaults
            [ODisable (VHost 2) (VHost 13); OUdpatePosition] s_enabled) = lastEl s_enabled ∧
  ∃ s3 m cv tb,
    udpatePosition sample_hosts
      (run_ops sample_hosts sample_defaults [ODisable (VHost 2) (VHost 13)] s_enabled)
    = Ret tt s3 ∧
    trace s3 =
      trace (run_ops sample_hosts sample_defaults [ODisable (VHost 2) (VHost 13)] s_enabled)
      ++ [CallMethod m "get" [VStr "Canvas"];
          CallDim cv (VElem tb) (VHost 11) "rteToolbarPosUpdate"].
Proof.
  destruct (enable_records_lastEl sample_hosts sample_defaults (VHost 2) VUndef
              s_initialised (VHost 13) s_enabled enable_sample) as [Hel Hkeep].
  assert (H11 : lastEl s_enabled = VHost 11) by (vm_compute; reflexivity).
  split; [exact H11|]. split.
  - apply Hkeep. reflexivity.
  - destruct (Hkeep [ODisable (VHost 2) (VHost 13)] eq_refl) as (_ & _ & Hupd).
    destruct (Hupd (final (udpatePosition sample_hosts
                      (run_ops sample_hosts sample_defaults
                         [ODisable (VHost 2) (VHost 13)] s_enabled))))
      as (m & cv & tb & p & adjust & el' & _ & _ & Htr & _).
    + vm_compute. reflexivity.
    + rewrite H11 in Htr. eexists _, m, cv, tb. split; [|exact Htr].
      vm_compute. reflexivity.
Defined.

Lemma canvas_events_reposition_witness :
  ∃ s3 tb,
    trigger sample_hosts 3 "canvasScroll"
      (run_ops sample_hosts sample_defaults [ODisable (VHost 2) (VHost 13)] s_enabled)
    = Ret tt s3 ∧ toolbar s3 = Some tb.
Proof.
  destruct (canvas_events_reposition sample_hosts sample_defaults (VHost 2) VUndef
              s_initialised (VHost 13) s_enabled 5%positive sample_config 3%positive
              4%positive)
    with (os := [ODisable (num := znum) (VHost 2) (VHost 13)]) (ev := "canvasScroll")
    as (s3 & tb & adjust & Hrun & _ & Htb & _).
  - vm_compute. reflexivity.
  - exact sample_config_lookup.
  - vm_compute. reflexivity.
  - exact sample_canvas_answers.
  - exact enable_sample.
  - reflexivity.
  - right. left. reflexivity.
  - exists s3, tb. by split.
Defined.

Lemma udpatePosition_places_toolbar_witness :
  ∃ s' el', udpatePosition sample_hosts s_enabled = Ret tt s' ∧
            doc s' !! 1%positive = Some el' ∧
            style el' !! "left" = Some "40px" ∧ style el' !! "top" = Some "50px".
Proof.
  destruct (udpatePosition_places_toolbar sample_hosts s_enabled 5%positive sample_config
              3%positive 4%positive 1%positive
              (default (Element "" "" ∅ None []) (doc s_enabled !! 1%positive))
              (Pos (Int 5) (Int 40) (Int 10) (Int 30) (Int 20)))
    as (s' & el' & Hrun & _ & Hdoc & Hleft & Htop & _).
  - vm_compute. reflexivity.
  - vm_compute. reflexivity.
  - vm_compute. reflexivity.
  - vm_compute. reflexivity.
  - vm_compute. reflexivity.
  - vm_compute. reflexivity.
  - vm_compute. reflexivity.
  - exists s', el'. split; [exact Hrun|]. split; [exact Hdoc|].
    split; [exact Hleft|]. apply Htop; vm_compute; reflexivity.
Defined.

Lemma init_merges_config_witness :
  ∃ c', heap s_initialised !! 5%positive = Some c' ∧
        props c' !! "em" = Some (VHost 3) ∧
        props c' !! "adjustToolbar" = Some (VNum (Int 1)) ∧
        pfx s_initialised = VStr "gjs-rte-".
Proof.
  destruct (init_merges_config sample_hosts sample_defaults 5%positive sample_opts
              s_created s_initialised)
    as (c' & _ & Hc' & Hkept & Hdef & _ & _ & _ & Hstr).
  - vm_compute. reflexivity.
  - exact init_sample.
  - exists c'. split; [exact Hc'|]. split; [|split].
    + apply Hkept; [discriminate|]. vm_compute. reflexivity.
    + rewrite Hdef; [|discriminate|]; vm_compute; reflexivity.
    + apply (Hstr "gjs-" "rte-"); vm_compute; reflexivity.
Defined.

Lemma disable_passes_through_witness :
  trace s_disabled =
    trace s_enabled ++ [CallMethod 2 "getChildrenContainer" []; CallMethod 13 "disable" []] ∧
  action_list s_disabled = action_list s_enabled ∧
  lastEl s_disabled = lastEl s_enabled ∧ toolbar s_disabled = toolbar s_enabled.
Proof.
  destruct (disable_passes_through sample_hosts (VHost 2) (VHost 13) s_enabled s_disabled)
    as (v & el & target & args & tb & e & _ & _ & _ & _ & _ & _ & _ & _ & _ & Hal & Hl & Ht).
  - vm_compute. reflexivity.
  - split; [vm_compute; reflexivity|]. by repeat split.
Defined.

Lemma add_stores_reference_witness :
  ∃ s' s'', add sample_hosts (VStr "bold") (VRef 6) s_initialised = Ret tt s' ∧
            set_prop (VRef 6) "title" (VStr "Strong") s' = Ret tt s'' ∧
            registered sample_hosts 0 "title" s'' = Some (VStr "Strong").
Proof.
  destruct (add_stores_reference sample_hosts (VStr "bold") 6%positive [] s_initialised)
    as (s' & Hadd & _ & _ & Hlater).
  - vm_compute. reflexivity.
  - vm_compute. eexists. reflexivity.
  - destruct (Hlater "title" (VStr "Strong")) as (s'' & Hset & Hreg).
    exists s', s''. by repeat split.
Defined.

Lemma repeated_enable_one_handler_witness :
  registrations 3 "canvasScroll" s_enabled_twice = 1%nat ∧
  registrations 3 "change:canvasOffset" s_enabled_twice = 1%nat.
Proof.
  destruct (repeated_enable_one_handler sample_hosts
              [(VHost 2, VUndef); (VHost 2, VHost 13)] s_initialised s_enabled_twice
              5%positive sample_config 3%positive) as [Hone _].
  - vm_compute. reflexivity.
  - exact sample_config_lookup.
  - vm_compute. reflexivity.
  - discriminate.
  - vm_compute. reflexivity.
  - split; apply Hone; apply list_elem_of_In; vm_compute; auto.
Defined.

Lemma toolbar_element_is_stable_witness :
  ∃ e, doc s_created !! e = None ∧
       getToolbarEl (run_ops sample_hosts sample_defaults
                       [OAdd (VStr "bold") (VRef 6); OEnable (VHost 2) VUndef;
                        OTrigger 3 "canvasScroll"; ODisable (VHost 2) (VHost 13)]
                       s_initialised)
       = Ret (VElem e)
           (run_ops sample_hosts sample_defaults
              [OAdd (VStr "bold") (VRef 6); OEnable (VHost 2) VUndef;
               OTrigger 3 "canvasScroll"; ODisable (VHost 2) (VHost 13)]
              s_initialised).
Proof.
  destruct (toolbar_element_is_stable sample_hosts sample_defaults (VRef 5) s_created
              s_initialised init_sample) as (e & Hnew & Hstable).
  exists e. split; [exact Hnew|]. apply Hstable. reflexivity.
Defined.

(** ** Further runs *)

(** Collaborators of a page being rendered: the render event has a [model],
    the canvas a tools element. *)
Definition render_hosts : hosts znum :=
  Hosts
    (λ h k, if String.eqb k "model" then VHost 21
            else if String.eqb k "el" then VHost 11 else VUndef)
    (λ t h m args, if String.eqb m "get" then Some (VHost 4) else Some (VHost 12))
    (λ t c tb el, Some (Pos (Int 5) (Int 40) (Int 10) (Int 30) (Int 20)))
    (λ t el c a b ab, Some (VHost 13)).

(** Collaborators among which the custom editor's [enable] returns nothing. *)
Definition silent_hosts : hosts znum :=
  Hosts
    (λ h k, if String.eqb k "el" then VHost 11 else VUndef)
    (λ t h m args, if String.eqb m "enable" then Some VUndef else Some (VHost 12))
    (λ t c tb el, Some (Pos (Int 5) (Int 40) (Int 10) (Int 30) (Int 20)))
    (λ t el c a b ab, Some (VHost 13)).

(** The module initialised with options that name no event model. *)
Definition s_plain : state znum :=
  final (init sample_hosts sample_defaults (VRef 6) s_created).

(** A module created on a page that has a global [commands]. *)
Definition s_global : state znum :=
  fresh_module (<["commands" := VHost 40]> ∅) ∅.

Lemma postRender_appends_toolbar_witness :
  ∃ s' el, postRender render_hosts (VHost 20) s_initialised = Ret tt s' ∧
           doc s' !! 1%positive = Some el ∧ parent el = Some (VHost 12) ∧
           style el !! "pointerEvents" = Some "all".
Proof.
  destruct (postRender_appends_toolbar render_hosts (VHost 20) s_initialised
              (final (postRender render_hosts (VHost 20) s_initialised)))
    as (model & canvas & tools & tb & e & r & _ & _ & Htools & _ & Htb & _ & _ & Hdoc & _).
  - vm_compute. reflexivity.
  - exists (final (postRender render_hosts (VHost 20) s_initialised)). eexists.
    split; [vm_compute; reflexivity|].
    vm_compute in Htb, Htools. simplify_eq.
    rewrite Hdoc. split; [apply lookup_insert_eq|]. split; [reflexivity|].
    cbn [set_parent set_style style]. apply lookup_insert_eq.
Defined.

Lemma postRender_before_init_throws_witness :
  postRender render_hosts (VHost 20) s_created
  = Throw TypeError (log (CallMethod 21 "get" [VStr "Canvas"]) s_created).
Proof.
  apply (postRender_before_init_throws render_hosts (VHost 20) 21 (VHost 4) s_created);
    vm_compute; reflexivity.
Defined.

Lemma add_before_init_renames_opts_witness :
  ∃ s', add sample_hosts (VStr "bold") (VRef 6) s_created = Throw TypeError s' ∧
        get_prop sample_hosts (VRef 6) "name" s' = Ret (VStr "bold") s' ∧
        get_prop sample_hosts (VRef 6) "title" s' = Ret (VStr "Bold") s' ∧
        heap s' !! 5%positive = heap s_created !! 5%positive ∧
        config s' = config s_created.
Proof.
  destruct (add_before_init_renames_opts sample_hosts (VStr "bold") 6 sample_action s_created)
    as (s' & Hrun & _ & Hname & Hprops & Hstore & _ & _ & _ & Hcfg & _).
  - vm_compute. reflexivity.
  - vm_compute. reflexivity.
  - exists s'. split; [exact Hrun|]. split; [exact Hname|].
    split; [by apply (Hprops "title")|]. split; [by apply Hstore|exact Hcfg].
Defined.

Lemma add_same_object_twice_witness :
  ∃ s1 s2,
    add sample_hosts (VStr "bold") (VRef 6) s_initialised = Ret tt s1 ∧
    add sample_hosts (VStr "strong") (VRef 6) s1 = Ret tt s2 ∧
    action_list s2 = Some [VRef 6; VRef 6] ∧
    registered sample_hosts 0 "name" s2 = Some (VStr "strong").
Proof.
  destruct (add_same_object_twice sample_hosts (VStr "bold") (VStr "strong") 6 []
              s_initialised) as (s1 & s2 & H1 & H2 & Hl & Hr & _).
  - vm_compute. reflexivity.
  - vm_compute. eexists. reflexivity.
  - exists s1, s2. by repeat split.
Defined.

Lemma add_leaves_the_rest_witness :
  heap s_added !! 5%positive = heap s_initialised !! 5%positive ∧
  doc s_added = doc s_initialised ∧ trace s_added = trace s_initialised.
Proof.
  destruct (add_leaves_the_rest sample_hosts (VStr "bold") 6 8 s_initialised s_added)
    as (Hothers & Hdoc & _ & _ & _ & _ & _ & Htr).
  - vm_compute. reflexivity.
  - vm_compute. reflexivity.
  - split; [by apply Hothers|]. by split.
Defined.

Lemma init_names_toolbar_class_witness :
  ∃ e el, toolbar s_plain = Some e ∧ doc s_plain !! e = Some el ∧
          className el = "undefinedrte-toolbar".
Proof.
  destruct (init_names_toolbar_class sample_hosts sample_defaults 6 sample_action
              s_created s_plain) as (e & el & p & Ht & Hd & _ & _ & Hundef).
  - vm_compute. reflexivity.
  - vm_compute. reflexivity.
  - exists e, el. split; [exact Ht|]. split; [exact Hd|].
    apply Hundef. vm_compute. reflexivity.
Defined.

Lemma init_actions_list_witness :
  ∃ la, heap s_created !! la = None ∧ actions s_initialised = VRef la ∧
        action_list s_initialised = Some [].
Proof.
  destruct (init_actions_list sample_hosts sample_defaults 5 sample_opts
              s_created s_initialised) as [_ Hfresh].
  - vm_compute. reflexivity.
  - exact init_sample.
  - apply Hfresh. vm_compute. reflexivity.
Defined.

Lemma init_without_options_witness :
  ∃ l c', config (final (init sample_hosts sample_defaults VUndef s_created)) = VRef l ∧
          heap (final (init sample_hosts sample_defaults VUndef s_created)) !! l = Some c' ∧
          props c' = list_to_map sample_defaults.
Proof.
  destruct (init_without_options sample_hosts sample_defaults s_created
              (final (init sample_hosts sample_defaults VUndef s_created)))
    as (l & c' & _ & Hcfg & Hh & _ & Hall).
  - vm_compute. reflexivity.
  - exists l, c'. split; [exact Hcfg|]. split; [exact Hh|].
    apply Hall. vm_compute. reflexivity.
Defined.

Lemma init_again_makes_new_toolbar_witness :
  ∃ e', e' ≠ 1%positive ∧
        toolbar (final (init sample_hosts sample_defaults (VRef 6) s_initialised)) = Some e'.
Proof.
  destruct (init_again_makes_new_toolbar sample_hosts sample_defaults (VRef 6) 1
              (default (Element "" "" ∅ None []) (doc s_initialised !! 1%positive))
              s_initialised
              (final (init sample_hosts sample_defaults (VRef 6) s_initialised)))
    as (e' & Hne & Ht & _).
  - vm_compute. reflexivity.
  - vm_compute. reflexivity.
  - vm_compute. reflexivity.
  - exists e'. by split.
Defined.

Lemma enable_passes_through_witness :
  trace s_enabled =
    trace s_initialised ++
      [CallMethod 2 "getChildrenContainer" [];
       CallNewRte (VHost 12) (VElem 1) "gjs-rte-actionbar" "gjs-rte-action" VUndef] ∧
  heap s_enabled = heap s_initialised.
Proof.
  destruct (enable_passes_through sample_hosts (VHost 2) VUndef s_initialised (VHost 13)
              s_enabled enable_sample)
    as (v & el & tb & e & p & ab & _ & _ & _ & _ & _ & _ & _ & _ & _ & Hh & _).
  split; [vm_compute; reflexivity|exact Hh].
Defined.

Lemma enable_before_init_throws_witness :
  ∃ s', enable sample_hosts (VHost 2) VUndef s_created = Throw TypeError s' ∧
        lastEl s' = VHost 11 ∧ subs s' = [].
Proof.
  destruct (enable_before_init_throws sample_hosts (VHost 2) VUndef 2 (VHost 11) VUndef
              (VHost 12) "undefined" s_created) as (s' & Hrun & Hl & _ & Hs & _).
  - vm_compute. reflexivity.
  - reflexivity.
  - vm_compute. reflexivity.
  - vm_compute. reflexivity.
  - vm_compute. reflexivity.
  - vm_compute. reflexivity.
  - exists s'. split; [exact Hrun|]. split; [exact Hl|]. exact Hs.
Defined.

Lemma enable_without_em_witness :
  subs (final (enable sample_hosts (VHost 2) VUndef s_plain)) = subs s_plain ∧
  timers (final (enable sample_hosts (VHost 2) VUndef s_plain)) = timers s_plain.
Proof.
  apply (enable_without_em sample_hosts (VHost 2) VUndef VUndef s_plain (VHost 13)).
  - vm_compute. reflexivity.
  - reflexivity.
  - vm_compute. reflexivity.
Defined.

Lemma enable_timers_add_up_witness :
  timers s_enabled_twice = [CbUdpatePosition; CbUdpatePosition].
Proof.
  rewrite (enable_timers_add_up sample_hosts [(VHost 2, VUndef); (VHost 2, VHost 13)]
             s_initialised s_enabled_twice 5 sample_config 3).
  - vm_compute. reflexivity.
  - vm_compute. reflexivity.
  - exact sample_config_lookup.
  - vm_compute. reflexivity.
  - vm_compute. reflexivity.
Defined.

Lemma enable_custom_without_result_throws_witness :
  ∃ s', enable silent_hosts (VHost 2) VUndef (set_customRte (VHost 30) s_initialised)
        = Throw TypeError s' ∧ subs s' = [] ∧ timers s' = [].
Proof.
  destruct (enable_custom_without_result_throws silent_hosts (VHost 2) VUndef 2 (VHost 11)
              (VHost 3) (VHost 12) "gjs-rte-" 1
              (default (Element "" "" ∅ None []) (doc s_initialised !! 1%positive))
              30 VUndef (set_customRte (VHost 30) s_initialised))
    as (s' & Hrun & _ & _ & _ & Hs & Ht).
  - reflexivity.
  - vm_compute. reflexivity.
  - vm_compute. reflexivity.
  - vm_compute. reflexivity.
  - vm_compute. reflexivity.
  - vm_compute. reflexivity.
  - vm_compute. reflexivity.
  - vm_compute. reflexivity.
  - vm_compute. reflexivity.
  - by left.
  - exists s'. split; [exact Hrun|]. split; [exact Hs|exact Ht].
Defined.

Lemma udpatePosition_all_or_nothing_witness :
  doc (final (udpatePosition sample_hosts s_plain)) = doc s_plain.
Proof.
  destruct (udpatePosition_all_or_nothing sample_hosts s_plain) as [Hthrow _].
  apply (Hthrow TypeError). vm_compute. reflexivity.
Defined.

Lemma timer_after_enable_places_toolbar_witness :
  ∃ s2 tb, run_timer sample_hosts s_enabled = Ret tt s2 ∧ timers s2 = [] ∧
           toolbar s2 = Some tb.
Proof.
  destruct (timer_after_enable_places_toolbar sample_hosts (VHost 2) VUndef s_initialised
              (VHost 13) s_enabled 5 sample_config 3 4)
    as (s2 & tb & Hrun & Ht & Htb & _).
  - vm_compute. reflexivity.
  - exact sample_config_lookup.
  - vm_compute. reflexivity.
  - exact sample_canvas_answers.
  - vm_compute. reflexivity.
  - exact enable_sample.
  - exists s2, tb. by repeat split.
Defined.

Lemma get_asks_global_collection_witness :
  ∃ cm q, globals s_global !! "commands" = Some (VHost cm) ∧
          trace (final (get sample_hosts (VStr "bold") s_global))
          = [CallMethod cm "where" [VRef q]].
Proof.
  destruct (get_asks_global_collection sample_hosts (VStr "bold") s_global VUndef
              (final (get sample_hosts (VStr "bold") s_global)))
    as (cm & q & res & Hg & _ & _ & _ & Htr & _).
  - vm_compute. reflexivity.
  - exists cm, q. split; [exact Hg|exact Htr].
Defined.
